(** * Reconciliation core of the ALB ingress controller

    A shallow embedding of [internal/alb/rs/rule.go] (the routing [Rule] and
    its [Reconcile] state machine) and of the option change classifier of the
    load-balancer aggregate ([options.needsModification]), together with the
    properties the specification states about them.

    Conventions of the embedding:
    - a Go pointer that the source assigns, tests against [nil] or
      dereferences with [*p] is an [option]; dereferencing [None] is the
      run-time panic [Panic];
    - Go's [int], [int64] and [uint64] are [Z], with the range checks and the
      wrap-around of the source written out;
    - a slice of struct pointers ([[]*elbv2.Action], [[]*elbv2.RuleCondition])
      is the list of the structs; a slice whose [nil]-ness the source tests
      ([portList]) is an [option] of a list;
    - a method with a pointer receiver is a computation in the monad [M]: it
      threads the receiver and appends what it does to the outside world
      (cloud calls, audit events, log lines) to a trace;
    - a Go [map] is a [gmap];
    - the current and the desired rule of a [Rule] are values. The one
      assignment that makes them one object, [r.rs.current = r.rs.desired]
      for a default rule, is the last thing [Reconcile] does to the rule, and
      the next [Reconcile] over such a rule writes to the desired rule and
      assigns it to current again, so values and pointers agree whenever
      [Reconcile] returns. *)

From Stdlib Require Import ZArith List Ascii String Permutation Sorted Lia.
From stdpp Require Import base option list strings gmap fin_maps.

Local Open Scope string_scope.
Local Open Scope Z_scope.
Local Open Scope list_scope.

(* ===================================================================== *)
(** * Go's [strconv] and [fmt], as far as rule priorities use them        *)
(* ===================================================================== *)

Module Strconv.

Inductive NumError := ErrSyntax | ErrRange.

Definition maxUint64 : Z := 2 ^ 64 - 1.

(** ['0' <= c && c <= '9'] and [d = c - '0']; every other byte is a syntax
    error in base 10 (a letter decodes to a digit [>= 10]). *)
Definition digitOf (c : ascii) : option Z :=
  let n := Z.of_nat (nat_of_ascii c) in
  if (48 <=? n) && (n <=? 57) then Some (n - 48) else None.

(** The loop of [ParseUint(s, 10, 64)] over the bytes of [s], [n] being the
    number read so far. *)
Fixpoint parseUintLoop (s : string) (n : Z) : Z * option NumError :=
  match s with
  | EmptyString => (n, None)
  | String c rest =>
      match digitOf c with
      | None => (0, Some ErrSyntax)
      | Some d =>
          let cutoff := maxUint64 / 10 + 1 in
          if cutoff <=? n then (maxUint64, Some ErrRange)
          else
            let n10 := n * 10 in
            let n1 := (n10 + d) mod 2 ^ 64 in
            if (n1 <? n10) || (maxUint64 <? n1)
            then (maxUint64, Some ErrRange)
            else parseUintLoop rest n1
      end
  end.

Definition ParseUint (s : string) : Z * option NumError :=
  match s with
  | EmptyString => (0, Some ErrSyntax)
  | _ => parseUintLoop s 0
  end.

(** [ParseInt(s, 10, 64)]: an optional sign, then [ParseUint], then the
    signed range check. *)
Definition ParseInt (s : string) : Z * option NumError :=
  match s with
  | EmptyString => (0, Some ErrSyntax)
  | String c rest =>
      let '(neg, body) :=
        if Ascii.eqb c "+" then (false, rest)
        else if Ascii.eqb c "-" then (true, rest)
        else (false, s) in
      let cutoff := 2 ^ 63 in
      match ParseUint body with
      | (_, Some ErrSyntax) => (0, Some ErrSyntax)
      | (un, _) =>
          if negb neg && (cutoff <=? un) then (cutoff - 1, Some ErrRange)
          else if neg && (cutoff <? un) then (- cutoff, Some ErrRange)
          else (if neg then - un else un, None)
      end
  end.

Definition digitChar (d : Z) : ascii := ascii_of_nat (Z.to_nat (48 + d)).

(** The digit loop of [fmt]'s integer formatting, filling its buffer from
    the right; [fuel] is the room left in the buffer. *)
Fixpoint formatBits (fuel : nat) (u : Z) (buf : string) : string :=
  match fuel with
  | O => buf
  | S fuel' =>
      if u <? 10 then String (digitChar u) buf
      else formatBits fuel' (u / 10) (String (digitChar (u mod 10)) buf)
  end.

(** [fmt.Sprintf("%v", i)] for an [int]. *)
Definition Sprint (i : Z) : string :=
  if i <? 0 then String "-" (formatBits 20 (- i) EmptyString)
  else formatBits 20 i EmptyString.

End Strconv.

(* ===================================================================== *)
(** * The collaborators: SDK types, cloud client, target groups           *)
(* ===================================================================== *)

(** What a function that can hit a run-time panic (nil dereference, index out
    of range) produces. *)
Inductive result (A : Type) : Type :=
| Done (a : A)
| Panic.
Arguments Done {A} a.
Arguments Panic {A}.

Definition deref {A} (p : option A) : result A :=
  match p with Some a => Done a | None => Panic end.

(** [k8s.io/apimachinery/pkg/util/intstr.IntOrString]. *)
Inductive IntOrString :=
| FromInt (i : Z)
| FromString (s : string).

Global Instance IntOrString_eq_dec : EqDecision IntOrString.
Proof. solve_decision. Defined.

(** The part of [github.com/aws/aws-sdk-go/service/elbv2] the rule reconciler
    touches. Every scalar field of the SDK is a pointer. *)
Module Elbv2.

Record Action := mkAction
  { TargetGroupArn : option string;
    Type_ : option string }.

Record RuleCondition := mkRuleCondition
  { Field : option string;
    Values : list (option string) }.

Record Rule := mkRule
  { Actions : list Action;
    Conditions : list RuleCondition;
    IsDefault : option bool;
    Priority : option string;
    RuleArn : option string }.

Record CreateRuleInput := mkCreateRuleInput
  { cri_Actions : list Action;
    cri_Conditions : list RuleCondition;
    cri_ListenerArn : option string;
    cri_Priority : option Z }.

Record ModifyRuleInput := mkModifyRuleInput
  { mri_Actions : list Action;
    mri_Conditions : list RuleCondition;
    mri_RuleArn : option string }.

Record DeleteRuleInput := mkDeleteRuleInput
  { dri_RuleArn : option string }.

(** [CreateRuleOutput.Rules] and [ModifyRuleOutput.Rules] are [[]*Rule]. *)
Record CreateRuleOutput := mkCreateRuleOutput { cro_Rules : list (option Rule) }.
Record ModifyRuleOutput := mkModifyRuleOutput { mro_Rules : list (option Rule) }.

Global Instance Action_eq_dec : EqDecision Action.
Proof. solve_decision. Defined.
Global Instance RuleCondition_eq_dec : EqDecision RuleCondition.
Proof. solve_decision. Defined.
Global Instance Rule_eq_dec : EqDecision Rule.
Proof. solve_decision. Defined.

Definition withTargetGroupArn (arn : option string) (a : Action) : Action :=
  {| TargetGroupArn := arn; Type_ := Type_ a |}.

Definition withActions (acts : list Action) (r : Rule) : Rule :=
  {| Actions := acts; Conditions := Conditions r; IsDefault := IsDefault r;
     Priority := Priority r; RuleArn := RuleArn r |}.

End Elbv2.

(** The cloud client [albelbv2.ELBV2svc]: each call answers with an output or
    with an opaque error, of which only the text [err.Error()] is used. *)
Module Albelbv2.

Record API := mkAPI
  { CreateRule : Elbv2.CreateRuleInput -> Elbv2.CreateRuleOutput + string;
    ModifyRule : Elbv2.ModifyRuleInput -> Elbv2.ModifyRuleOutput + string;
    DeleteRule : Elbv2.DeleteRuleInput -> option string }.

End Albelbv2.

Module Tg.

Record IngressBackend := mkIngressBackend
  { ServiceName : string;
    ServicePort : IntOrString }.

(** Modelled from the spec: the target-group package is not part of the
    sources at hand. A target group is known by the backend it serves and
    exposes [CurrentARN() -> optional string]. *)
Record TargetGroup := mkTargetGroup
  { SvcName : string;
    SvcPort : IntOrString;
    CurrentARN : option string }.

Definition TargetGroups := list TargetGroup.

(** Modelled from the spec: the scan behind [LookupByBackend], [p] being the
    index of the head of [t]. *)
Fixpoint lookupFrom (p : Z) (t : TargetGroups) (backend : IngressBackend) : Z :=
  match t with
  | [] => -1
  | v :: t' =>
      if bool_decide (SvcName v = ServiceName backend)
         && bool_decide (SvcPort v = ServicePort backend)
      then p
      else lookupFrom (p + 1) t' backend
  end.

(** Modelled from the spec: [LookupByBackend(serviceName, servicePort) ->
    index-or-not-found], the index of the first target group serving the
    backend, [-1] when there is none. *)
Definition LookupByBackend (t : TargetGroups) (backend : IngressBackend) : Z :=
  lookupFrom 0 t backend.

End Tg.

(** Modelled from the spec: [util.DeepEqual] of [pkg/util/types] is not part
    of the sources at hand; two values are deeply equal when they are
    structurally equal, pointers being compared through what they point to. *)
Definition DeepEqual {A} `{EqDecision A} (x y : A) : bool := bool_decide (x = y).

(* ===================================================================== *)
(** * Package [rs]: the routing rule                                      *)
(* ===================================================================== *)

Module Rs.

Import Elbv2.

(** ** State *)

(** The structs [Rule], [rs], [svc] and [service] are declared outside
    [rule.go]; their fields are the ones [rule.go] reads and writes. *)

Record service := mkService
  { name : string;
    port : IntOrString;
    targetPort : Z }.

Record svc := mkSvc
  { svc_current : service;
    svc_desired : service }.

Record rs := mkRs
  { rs_current : option Elbv2.Rule;
    rs_desired : option Elbv2.Rule }.

(** [Rule.logger] is a handle on the logging effect and carries no state. *)
Record Rule := mkRule
  { r_svc : svc;
    r_rs : rs;
    deleted : bool }.

(** Modelled from the spec: the reconcile context of this package is declared
    outside [rule.go]; it "bundles the target-group collection reference, the
    owning listener reference, and the event-emit function". Its event
    callback [Eventf] is the effect [Event] below. *)
Record ReconcileOptions := mkReconcileOptions
  { TargetGroups : Tg.TargetGroups;
    ListenerArn : option string }.

Definition setCurrent (c : option Elbv2.Rule) (r : Rule) : Rule :=
  {| r_svc := r_svc r;
     r_rs := {| rs_current := c; rs_desired := rs_desired (r_rs r) |};
     deleted := deleted r |}.

Definition setDesired (d : option Elbv2.Rule) (r : Rule) : Rule :=
  {| r_svc := r_svc r;
     r_rs := {| rs_current := rs_current (r_rs r); rs_desired := d |};
     deleted := deleted r |}.

Definition setSvcCurrent (s : service) (r : Rule) : Rule :=
  {| r_svc := {| svc_current := s; svc_desired := svc_desired (r_svc r) |};
     r_rs := r_rs r;
     deleted := deleted r |}.

Definition setDeleted (b : bool) (r : Rule) : Rule :=
  {| r_svc := r_svc r; r_rs := r_rs r; deleted := b |}.

(** ** Effects *)

(** An argument of a format string; [log.Prettify] is kept symbolic. *)
Inductive arg :=
| AStr (s : string)
| AInt (i : Z)
| APrettify (r : Elbv2.Rule).

(** A formatted message, [fmt.Sprintf(format, args...)], unevaluated. *)
Record text := Fmt { format : string; args : list arg }.

(** A Go [error] built by [fmt.Errorf]. *)
Definition error := text.

Inductive level := Debug | Info | Error.

(** What one step does to the outside world. Log lines are recorded by
    level and format string. *)
Inductive effect :=
| CloudCreateRule (i : CreateRuleInput)
| CloudModifyRule (i : ModifyRuleInput)
| CloudDeleteRule (i : DeleteRuleInput)
| Event (eventtype reason : string) (message : text)
| Log (l : level) (fmt : string).

Definition EventTypeNormal : string := "Normal".
Definition EventTypeWarning : string := "Warning".

Definition isCloudCall (e : effect) : bool :=
  match e with
  | CloudCreateRule _ | CloudModifyRule _ | CloudDeleteRule _ => true
  | _ => false
  end.

(** ** The monad of methods on [*Rule] *)

(** A method returns a value or panics; either way it leaves a receiver and
    a trace behind. *)
Inductive outcome (A : Type) : Type :=
| Returns (a : A) (r : Rule) (tr : list effect)
| Panics (r : Rule) (tr : list effect).
Arguments Returns {A} a r tr.
Arguments Panics {A} r tr.

Definition M (A : Type) : Type := Rule -> list effect -> outcome A.

Definition ret {A} (a : A) : M A := fun r tr => Returns a r tr.

Definition bind {A B} (m : M A) (k : A -> M B) : M B :=
  fun r tr =>
    match m r tr with
    | Returns a r' tr' => k a r' tr'
    | Panics r' tr' => Panics r' tr'
    end.

Definition get : M Rule := fun r tr => Returns r r tr.
Definition update (f : Rule -> Rule) : M unit := fun r tr => Returns tt (f r) tr.
Definition emit (e : effect) : M unit := fun r tr => Returns tt r (tr ++ [e]).
Definition lift {A} (x : result A) : M A :=
  fun r tr => match x with Done a => Returns a r tr | Panic => Panics r tr end.

Definition finalRule {A} (o : outcome A) : Rule :=
  match o with Returns _ r _ | Panics r _ => r end.

Definition finalTrace {A} (o : outcome A) : list effect :=
  match o with Returns _ _ tr | Panics _ tr => tr end.

(** The cloud calls recorded in a trace. *)
Definition cloudCalls (tr : list effect) : list effect := List.filter isCloudCall tr.

Notation "'do' x <- m ; k" := (bind m (fun x => k))
  (at level 10, x name, m at level 100, k at level 200).
Notation "'run' m ; k" := (bind m (fun _ => k))
  (at level 10, m at level 100, k at level 200).

Definition logf (l : level) (fmt : string) : M unit := emit (Log l fmt).
Definition Eventf (eventtype reason : string) (message : text) : M unit :=
  emit (Event eventtype reason message).

Fixpoint forRange (idx : list nat) (body : nat -> M unit) : M unit :=
  match idx with
  | [] => ret tt
  | i :: idx' => run body i; forRange idx' body
  end.

(** ** Constructors *)

Record NewDesiredRuleOptions := mkNewDesiredRuleOptions
  { o_Priority : Z;
    o_Hostname : string;
    o_IgnoreHostHeader : option bool;
    o_Path : string;
    o_SvcName : string;
    o_SvcPort : IntOrString;
    o_TargetPort : Z }.

Definition emptyService : service :=
  {| name := EmptyString; port := FromInt 0; targetPort := 0 |}.

Definition NewDesiredRule (o : NewDesiredRuleOptions) : Rule :=
  let isDefault := o_Priority o =? 0 in
  let prio := if isDefault then "default" else Strconv.Sprint (o_Priority o) in
  let host :=
    if negb (String.eqb (o_Hostname o) EmptyString)
       && match o_IgnoreHostHeader o with Some b => negb b | None => false end
    then [ {| Field := Some "host-header"; Values := [Some (o_Hostname o)] |} ]
    else [] in
  let path :=
    if negb (String.eqb (o_Path o) EmptyString)
    then [ {| Field := Some "path-pattern"; Values := [Some (o_Path o)] |} ]
    else [] in
  let r :=
    {| Actions := [ {| TargetGroupArn := None; Type_ := Some "forward" |} ];
       Conditions := if isDefault then [] else host ++ path;
       IsDefault := Some isDefault;
       Priority := Some prio;
       RuleArn := None |} in
  {| r_svc := {| svc_current := emptyService;
                 svc_desired := {| name := o_SvcName o; port := o_SvcPort o;
                                   targetPort := o_TargetPort o |} |};
     r_rs := {| rs_current := None; rs_desired := Some r |};
     deleted := false |}.

Record NewCurrentRuleOptions := mkNewCurrentRuleOptions
  { c_SvcName : string;
    c_SvcPort : IntOrString;
    c_TargetPort : Z;
    c_Rule : option Elbv2.Rule }.

Definition NewCurrentRule (o : NewCurrentRuleOptions) : Rule :=
  {| r_svc := {| svc_current := {| name := c_SvcName o; port := c_SvcPort o;
                                   targetPort := c_TargetPort o |};
                 svc_desired := emptyService |};
     r_rs := {| rs_current := c_Rule o; rs_desired := None |};
     deleted := false |}.

(** ** Comparison of conditions *)

Fixpoint conditionToMapFrom (cs : list RuleCondition)
    (cMap : gmap string (list (option string)))
  : result (gmap string (list (option string))) :=
  match cs with
  | [] => Done cMap
  | c :: cs' =>
      match Field c with
      | None => Panic
      | Some f => conditionToMapFrom cs' (<[f := Values c]> cMap)
      end
  end.

Definition conditionToMap (cs : list RuleCondition)
  : result (gmap string (list (option string))) :=
  conditionToMapFrom cs ∅.

(** The loop over [cMap1] returns [false] at the first key that fails, so
    its verdict is the conjunction over all keys, whatever the order. *)
Definition conditionsEqual (c1 c2 : list RuleCondition) : result bool :=
  match conditionToMap c1 with
  | Panic => Panic
  | Done cMap1 =>
      match conditionToMap c2 with
      | Panic => Panic
      | Done cMap2 =>
          Done (map_fold
                  (fun k v acc =>
                     acc && match cMap2 !! k with
                            | None => false
                            | Some val => DeepEqual v val
                            end)
                  true cMap1)
      end
  end.

Definition priority (s : option string) : result Z :=
  match s with
  | None => Panic
  | Some s =>
      if String.eqb s "default" then Done 0
      else Done (fst (Strconv.ParseInt s))
  end.

(** ** Methods *)

Section Methods.

(** The package-level client [albelbv2.ELBV2svc]. *)
Variable ELBV2svc : Albelbv2.API.

Definition TargetGroupArn (tgs : Tg.TargetGroups) : M (option string) :=
  do r <- get;
  let i := Tg.LookupByBackend tgs
             {| Tg.ServiceName := name (svc_desired (r_svc r));
                Tg.ServicePort := port (svc_desired (r_svc r)) |} in
  if i <? 0 then
    run logf Error "Failed to locate TargetGroup related to this service: %s:%s";
    ret None
  else
    do t <- lift (deref (tgs !! Z.to_nat i));
    let arn := Tg.CurrentARN t in
    run match arn with
        | None => logf Error "Located TargetGroup but no known (current) state found: %s:%s"
        | Some _ => ret tt
        end;
    ret arn.

(** [r.rs.desired.Actions[i].TargetGroupArn = arn]. *)
Definition setDesiredActionArn (i : nat) (arn : option string) : M unit :=
  do r <- get;
  do d <- lift (deref (rs_desired (r_rs r)));
  do a <- lift (deref (Actions d !! i));
  update (setDesired
            (Some (withActions (<[i := withTargetGroupArn arn a]> (Actions d)) d))).

Definition create (rOpts : ReconcileOptions) : M (option error) :=
  do r <- get;
  do d <- lift (deref (rs_desired (r_rs r)));
  do p <- lift (priority (Priority d));
  let input :=
    {| cri_Actions := Actions d;
       cri_Conditions := Conditions d;
       cri_ListenerArn := ListenerArn rOpts;
       cri_Priority := Some p |} in
  run emit (CloudCreateRule input);
  match Albelbv2.CreateRule ELBV2svc input with
  | inr err =>
      run Eventf EventTypeWarning "ERROR"
            (Fmt "Error creating %v rule: %s" [AInt p; AStr err]);
      ret (Some (Fmt "Failed Rule creation. Rule: %s | Error: %s"
                     [APrettify d; AStr err]))
  | inl o =>
      do first <- lift (deref (cro_Rules o !! 0%nat));
      run update (setCurrent first);
      run update (setSvcCurrent (svc_desired (r_svc r)));
      ret None
  end.

(** [fmt.Sprintf("Error modifying rule %s: %s", arn, err)], evaluated: the
    verb [%s] prints a string operand as it is. *)
Definition modifyMessage (arn err : string) : string :=
  "Error modifying rule " +:+ arn +:+ ": " +:+ err.

(** On a refused call the message is built first and then handed, as the
    format string and without operands, to [Eventf] and to [fmt.Errorf]. *)
Definition modify (rOpts : ReconcileOptions) : M (option error) :=
  do r <- get;
  do d <- lift (deref (rs_desired (r_rs r)));
  do c <- lift (deref (rs_current (r_rs r)));
  let input :=
    {| mri_Actions := Actions d;
       mri_Conditions := Conditions d;
       mri_RuleArn := RuleArn c |} in
  run emit (CloudModifyRule input);
  match Albelbv2.ModifyRule ELBV2svc input with
  | inr err =>
      do arn <- lift (deref (RuleArn c));
      let msg := modifyMessage arn err in
      run Eventf EventTypeWarning "ERROR" (Fmt msg []);
      ret (Some (Fmt msg []))
  | inl o =>
      run match mro_Rules o with
          | first :: _ => update (setCurrent first)
          | [] => ret tt
          end;
      run update (setSvcCurrent (svc_desired (r_svc r)));
      ret None
  end.

Definition delete (rOpts : ReconcileOptions) : M (option error) :=
  do r <- get;
  match rs_current (r_rs r) with
  | None =>
      run logf Info "Rule entered delete with no Current to delete. Rule: %s";
      ret None
  | Some c =>
      do isDefault <- lift (deref (IsDefault c));
      if isDefault : bool then
        run logf Debug "Deletion hit for default rule, which is bound to the Listener. It will not be deleted from here. Rule. Rule: %s";
        ret None
      else
        let input := {| dri_RuleArn := RuleArn c |} in
        run emit (CloudDeleteRule input);
        match Albelbv2.DeleteRule ELBV2svc input with
        | Some err =>
            do p <- lift (deref (Priority c));
            run Eventf EventTypeWarning "ERROR"
                  (Fmt "Error deleting %s rule: %s" [AStr p; AStr err]);
            ret (Some (Fmt "Failed Rule deletion. Error: %s" [AStr err]))
        | None =>
            run update (setDeleted true);
            ret None
        end
  end.

Definition needsModification : M bool :=
  do r <- get;
  match rs_current (r_rs r) with
  | None =>
      run logf Debug "Current is nil";
      ret true
  | Some crs =>
      do drs <- lift (deref (rs_desired (r_rs r)));
      if negb (DeepEqual (Actions crs) (Actions drs)) then
        run logf Debug "Actions needs to be changed (%v != %v)";
        ret true
      else
        do same <- lift (conditionsEqual (Conditions crs) (Conditions drs));
        if negb same then
          run logf Debug "Conditions needs to be changed (%v != %v)";
          ret true
        else if negb (String.eqb (name (svc_current (r_svc r)))
                                 (name (svc_desired (r_svc r)))) then
          run logf Debug "SvcName needs to be changed (%v != %v)";
          ret true
        else if negb (targetPort (svc_current (r_svc r))
                      =? targetPort (svc_desired (r_svc r)))
                && negb (targetPort (svc_current (r_svc r)) =? 0) then
          run logf Debug "Target port needs to be changed (%v != %v)";
          ret true
        else ret false
  end.

(** The priority of the current rule, as the event and log lines after a
    successful call print it: [*r.rs.current.Priority]. *)
Definition currentPriority : M string :=
  do r <- get;
  do c <- lift (deref (rs_current (r_rs r)));
  lift (deref (Priority c)).

(** The opening block of [Reconcile]: if there is a desired rule, every
    one of its actions gets the target group ARN of the rule. *)
Definition setDesiredArns (rOpts : ReconcileOptions) : M unit :=
  do r <- get;
  match rs_desired (r_rs r) with
  | Some d =>
      forRange (seq 0 (length (Actions d)))
        (fun i =>
           do arn <- TargetGroupArn (TargetGroups rOpts);
           setDesiredActionArn i arn)
  | None => ret tt
  end.

(** The [switch] of [Reconcile]; its cases are tried in order. *)
Definition reconcileSwitch (rOpts : ReconcileOptions) : M (option error) :=
  do r <- get;
  match rs_desired (r_rs r) with
  | None =>
      match rs_current (r_rs r) with
      | None => ret None
      | Some c =>
          do isDefault <- lift (deref (IsDefault c));
          if isDefault : bool then ret None
          else
            run logf Info "Start Rule deletion.";
            do err <- delete rOpts;
            match err with
            | Some e => ret (Some e)
            | None =>
                do p <- currentPriority;
                run Eventf EventTypeNormal "DELETE" (Fmt "%s rule deleted" [AStr p]);
                run logf Info "Completed Rule deletion. Rule Priority: %s | Condition: %s";
                ret None
            end
      end
  | Some d =>
      do isDefault <- lift (deref (IsDefault d));
      if isDefault : bool then
        run update (setCurrent (Some d));
        ret None
      else
        match rs_current (r_rs r) with
        | None =>
            run logf Info "Start Rule creation.";
            do err <- create rOpts;
            match err with
            | Some e => ret (Some e)
            | None =>
                do p <- currentPriority;
                run Eventf EventTypeNormal "CREATE" (Fmt "%s rule created" [AStr p]);
                run logf Info "Completed Rule creation. Rule Priority: %s | Condition: %s";
                ret None
            end
        | Some _ =>
            do modified <- needsModification;
            if modified : bool then
              do err <- modify rOpts;
              match err with
              | Some e => ret (Some e)
              | None =>
                  do p <- currentPriority;
                  run Eventf EventTypeNormal "MODIFY" (Fmt "%s rule modified" [AStr p]);
                  ret None
              end
            else ret None
        end
  end.

Definition Reconcile (rOpts : ReconcileOptions) : M (option error) :=
  run setDesiredArns rOpts;
  reconcileSwitch rOpts.

End Methods.

Definition stripDesiredState : M unit := update (setDesired None).
Definition stripCurrentState : M unit := update (setCurrent None).

Definition IsDesiredDefault (r : Rule) : result bool :=
  match rs_desired (r_rs r) with
  | None => Done false
  | Some d => deref (IsDefault d)
  end.

End Rs.

(* ===================================================================== *)
(** * Package [lb]: the change classifier of the load-balancer options    *)
(* ===================================================================== *)

Module Lb.

(** [type portList []int64]; a [nil] slice is [None]. *)
Definition portList := list Z.

Record opts := mkOpts
  { ports : option portList;
    inboundCidrs : list (option string);
    webACLId : option string;
    managedSG : option string;
    managedInstanceSG : option string }.

Record options := mkOptions
  { current : opts;
    desired : opts }.

(** [type loadBalancerChange uint], the constants being [1 << iota]. *)
Definition loadBalancerChange := Z.

Definition securityGroupsModified : loadBalancerChange := Z.shiftl 1 0.
Definition subnetsModified : loadBalancerChange := Z.shiftl 1 1.
Definition tagsModified : loadBalancerChange := Z.shiftl 1 2.
Definition schemeModified : loadBalancerChange := Z.shiftl 1 3.
Definition attributesModified : loadBalancerChange := Z.shiftl 1 4.
Definition inboundCidrsModified : loadBalancerChange := Z.shiftl 1 5.
Definition portsModified : loadBalancerChange := Z.shiftl 1 6.
Definition ipAddressTypeModified : loadBalancerChange := Z.shiftl 1 7.
Definition webACLAssociationModified : loadBalancerChange := Z.shiftl 1 8.

(** [sort.Sort] on a [portList], whose [Less] is [<] on [int64]. *)
Fixpoint insertPort (x : Z) (l : portList) : portList :=
  match l with
  | [] => [x]
  | y :: l' => if x <=? y then x :: l else y :: insertPort x l'
  end.

Fixpoint sortPorts (l : portList) : portList :=
  match l with
  | [] => []
  | x :: l' => insertPort x (sortPorts l')
  end.

(** Sorting happens in place and keeps a [nil] slice [nil]. *)
Definition Sort (p : option portList) : option portList :=
  match p with
  | None => None
  | Some l => Some (sortPorts l)
  end.

(** [reflect.DeepEqual] on two [portList]s: a [nil] slice is deeply equal
    to [nil] only. *)
Definition reflectDeepEqual (x y : option portList) : bool := bool_decide (x = y).

Definition withPorts (p : option portList) (o : opts) : opts :=
  {| ports := p; inboundCidrs := inboundCidrs o; webACLId := webACLId o;
     managedSG := managedSG o; managedInstanceSG := managedInstanceSG o |}.

Definition isNil {A} (p : option A) : bool :=
  match p with None => true | Some _ => false end.

Section Classifier.

(** [util.AWSStringSlice(cidrs).Hash()], of [pkg/util/types]. *)
Variable Hash : list (option string) -> string.

(** The receiver is a copy, but its port slices share their arrays with
    the caller's: the result carries the options as the call leaves
    them, next to the change mask. *)
Definition needsModification (o : options) : options * loadBalancerChange :=
  let changes0 : loadBalancerChange := 0 in
  let '(o1, changes1) :=
    if negb (isNil (ports (current o))) && negb (isNil (managedSG (current o))) then
      let changes :=
        if negb (String.eqb (Hash (inboundCidrs (current o)))
                            (Hash (inboundCidrs (desired o))))
        then Z.lor changes0 inboundCidrsModified
        else changes0 in
      let cur := Sort (ports (current o)) in
      let des := Sort (ports (desired o)) in
      let o' := {| current := withPorts cur (current o);
                   desired := withPorts des (desired o) |} in
      if negb (reflectDeepEqual des cur)
      then (o', Z.lor changes portsModified)
      else (o', changes)
    else (o, changes0) in
  let c := webACLId (current o) in
  let d := webACLId (desired o) in
  if (negb (isNil d) && isNil c)
     || (isNil d && negb (isNil c))
     || match c, d with
        | Some cs, Some ds => negb (String.eqb cs ds)
        | _, _ => false
        end
  then (o1, Z.lor changes1 webACLAssociationModified)
  else (o1, changes1).

End Classifier.

(** [a[i]] for a Go [int] index: out of range, negative included, panics. *)
Definition index (a : portList) (i : Z) : result Z :=
  if (0 <=? i) && (i <? Z.of_nat (length a)) then deref ((a : list Z) !! Z.to_nat i)
  else Panic.

(** The [sort.Interface] methods of [portList]. *)
Definition Len (a : portList) : Z := Z.of_nat (length a).

(** [a[i], a[j] = a[j], a[i]]: both elements are read first, then written
    from left to right; the result is the array as the call leaves it. *)
Definition Swap (a : portList) (i j : Z) : result portList :=
  match index a j with
  | Panic => Panic
  | Done aj =>
      match index a i with
      | Panic => Panic
      | Done ai => Done (<[Z.to_nat j := ai]> (<[Z.to_nat i := aj]> (a : list Z)))
      end
  end.

Definition Less (a : portList) (i j : Z) : result bool :=
  match index a i with
  | Panic => Panic
  | Done ai =>
      match index a j with
      | Panic => Panic
      | Done aj => Done (ai <? aj)
      end
  end.

End Lb.

(* ===================================================================== *)
(** * Vocabulary of the statements                                        *)
(* ===================================================================== *)

Module Obs.

Import Elbv2 Rs.

(** The inputs the three cloud-calling methods assemble. *)
Definition createInput (rOpts : ReconcileOptions) (d : Elbv2.Rule) (p : Z)
  : CreateRuleInput :=
  {| cri_Actions := Actions d;
     cri_Conditions := Conditions d;
     cri_ListenerArn := ListenerArn rOpts;
     cri_Priority := Some p |}.

Definition modifyInput (c d : Elbv2.Rule) : ModifyRuleInput :=
  {| mri_Actions := Actions d;
     mri_Conditions := Conditions d;
     mri_RuleArn := RuleArn c |}.

Definition deleteInput (c : Elbv2.Rule) : DeleteRuleInput :=
  {| dri_RuleArn := RuleArn c |}.

(** What [TargetGroupArn] returns for a service binding, and what it
    logs on the way. *)
Definition backendOf (s : service) : Tg.IngressBackend :=
  {| Tg.ServiceName := name s; Tg.ServicePort := port s |}.

Definition lookupArn (tgs : Tg.TargetGroups) (s : service) : option string :=
  let i := Tg.LookupByBackend tgs (backendOf s) in
  if i <? 0 then None
  else match tgs !! Z.to_nat i with
       | Some t => Tg.CurrentARN t
       | None => None
       end.

Definition lookupLog (tgs : Tg.TargetGroups) (s : service) : list effect :=
  if Tg.LookupByBackend tgs (backendOf s) <? 0
  then [Log Error "Failed to locate TargetGroup related to this service: %s:%s"]
  else match lookupArn tgs s with
       | None => [Log Error "Located TargetGroup but no known (current) state found: %s:%s"]
       | Some _ => []
       end.

(** A desired rule once its actions carry the resolved target group ARN. *)
Definition resolveRule (arn : option string) (d : Elbv2.Rule) : Elbv2.Rule :=
  withActions (map (withTargetGroupArn arn) (Actions d)) d.

(** The receiver as the opening block of [Reconcile] leaves it, and the
    lines that block logs. *)
Definition resolved (rOpts : ReconcileOptions) (r : Rule) : Rule :=
  match rs_desired (r_rs r) with
  | Some d =>
      setDesired
        (Some (resolveRule (lookupArn (TargetGroups rOpts) (svc_desired (r_svc r))) d)) r
  | None => r
  end.

Definition resolutionLog (rOpts : ReconcileOptions) (r : Rule) : list effect :=
  match rs_desired (r_rs r) with
  | Some d =>
      concat (replicate (length (Actions d))
                        (lookupLog (TargetGroups rOpts) (svc_desired (r_svc r))))
  | None => []
  end.

(** Conditions all of whose [Field] pointers are set, as the cloud reports
    them and as [NewDesiredRule] builds them. *)
Definition fieldsPresent (cs : list RuleCondition) : Prop :=
  Forall (fun c => is_Some (Field c)) cs.

Definition fieldOf (c : RuleCondition) : string := default EmptyString (Field c).

Definition entry (c : RuleCondition) : string * list (option string) :=
  (fieldOf c, Values c).

(** Two condition lists stand for the same set: the same fields, each
    with the same value list. *)
Definition sameConditionSet (c1 c2 : list RuleCondition) : Prop :=
  exists m, conditionToMap c1 = Done m /\ conditionToMap c2 = Done m.

(** The current state of a rule already is what is desired: the same
    actions once the desired ones carry the resolved target group ARN, the
    same condition set, the same service binding. *)
Definition inSync (rOpts : ReconcileOptions) (r : Rule) (c d : Elbv2.Rule) : Prop :=
  rs_current (r_rs r) = Some c /\
  rs_desired (r_rs r) = Some d /\
  Actions c =
    Actions (resolveRule (lookupArn (TargetGroups rOpts) (svc_desired (r_svc r))) d) /\
  sameConditionSet (Conditions c) (Conditions d) /\
  svc_current (r_svc r) = svc_desired (r_svc r).

(** A flag when [b] holds, no flag otherwise. *)
Definition flagIf (b : bool) (f : Lb.loadBalancerChange) : Lb.loadBalancerChange :=
  if b then f else 0.

(** The receiver after a successful call that answered with [first]. *)
Definition adopt (first : option Elbv2.Rule) (r : Rule) : Rule :=
  setSvcCurrent (svc_desired (r_svc r)) (setCurrent first r).

(** The nine flags of [loadBalancerChange], in the order of their
    declaration. *)
Definition allFlags : list Lb.loadBalancerChange :=
  [ Lb.securityGroupsModified; Lb.subnetsModified; Lb.tagsModified;
    Lb.schemeModified; Lb.attributesModified; Lb.inboundCidrsModified;
    Lb.portsModified; Lb.ipAddressTypeModified; Lb.webACLAssociationModified ].

(** The same port list up to the order of the ports, a nil list being the
    same as a nil list only. *)
Definition samePorts (p q : option Lb.portList) : Prop :=
  match p, q with
  | Some a, Some b => a ≡ₚ b
  | None, None => True
  | _, _ => False
  end.

(** A rule snapshot as the cloud reports it: every pointer the reconciler
    dereferences is set. *)
Definition wfSnapshot (x : Elbv2.Rule) : Prop :=
  is_Some (IsDefault x) /\ is_Some (Priority x) /\ is_Some (RuleArn x) /\
  fieldsPresent (Conditions x).

(** A rule one pass can work on without dereferencing nil: the desired rule
    has its default flag, its priority and the fields of its conditions; the
    current rule likewise, and its ARN whenever the desired rule is not the
    default one. *)
Definition wfRule (r : Rule) : Prop :=
  (forall d,
      rs_desired (r_rs r) = Some d ->
      is_Some (IsDefault d) /\ is_Some (Priority d) /\ fieldsPresent (Conditions d)) /\
  (forall c,
      rs_current (r_rs r) = Some c ->
      is_Some (IsDefault c) /\ is_Some (Priority c) /\ fieldsPresent (Conditions c) /\
      (forall d, rs_desired (r_rs r) = Some d -> IsDefault d = Some false ->
                 is_Some (RuleArn c))).

(** A cloud whose successful answers are well formed: a create answer holds
    at least one rule, and the first rule of a create or modify answer is
    there with all its pointers set. *)
Definition wfCloud (cloud : Albelbv2.API) : Prop :=
  (forall i o,
      Albelbv2.CreateRule cloud i = inl o ->
      exists x rest, cro_Rules o = Some x :: rest /\ wfSnapshot x) /\
  (forall i o first rest,
      Albelbv2.ModifyRule cloud i = inl o ->
      mro_Rules o = first :: rest ->
      exists x, first = Some x /\ wfSnapshot x).

End Obs.

(* ===================================================================== *)
(** * Concrete rules, clouds and options used to exercise the statements  *)
(* ===================================================================== *)

Module Samples.

Import Elbv2 Rs.

Definition hostCond : RuleCondition :=
  {| Field := Some "host-header"; Values := [Some "foo.com"] |}.

Definition pathCond : RuleCondition :=
  {| Field := Some "path-pattern"; Values := [Some "/a"] |}.

Definition tgs : Tg.TargetGroups :=
  [ {| Tg.SvcName := "web"; Tg.SvcPort := FromInt 80; Tg.CurrentARN := Some "arn:tg/web" |} ].

Definition rOpts : ReconcileOptions :=
  {| TargetGroups := tgs; ListenerArn := Some "arn:listener" |}.

Definition forward (arn : option string) : Action :=
  {| Elbv2.TargetGroupArn := arn; Type_ := Some "forward" |}.

(** A rule as the cloud reports it. *)
Definition cloudRule (conds : list RuleCondition) : Elbv2.Rule :=
  {| Actions := [forward (Some "arn:tg/web")];
     Conditions := conds;
     IsDefault := Some false;
     Priority := Some "5";
     RuleArn := Some "arn:rule/5" |}.

Definition cloudDefaultRule : Elbv2.Rule :=
  {| Actions := [forward (Some "arn:tg/web")];
     Conditions := [];
     IsDefault := Some true;
     Priority := Some "default";
     RuleArn := Some "arn:rule/default" |}.

(** Scenario A of the specification: priority 5, host and path. *)
Definition desiredOptions (prio : Z) : NewDesiredRuleOptions :=
  {| o_Priority := prio;
     o_Hostname := "foo.com";
     o_IgnoreHostHeader := Some false;
     o_Path := "/a";
     o_SvcName := "web";
     o_SvcPort := FromInt 80;
     o_TargetPort := 8080 |}.

Definition webService (tp : Z) : service :=
  {| name := "web"; port := FromInt 80; targetPort := tp |}.

(** A rule with both sides: the desired side of [NewDesiredRule], the
    current side a cloud rule with the given conditions. *)
Definition paired (prio : Z) (current : Elbv2.Rule) (currentTargetPort : Z) : Rule :=
  setSvcCurrent (webService currentTargetPort)
    (setCurrent (Some current) (NewDesiredRule (desiredOptions prio))).

(** A rule that is only current. *)
Definition onlyCurrent (current : Elbv2.Rule) : Rule :=
  NewCurrentRule {| c_SvcName := "web"; c_SvcPort := FromInt 80;
                    c_TargetPort := 8080; c_Rule := Some current |}.

(** A cloud that accepts every call and answers a create with the rule it
    was asked for. *)
Definition cloudOK : Albelbv2.API :=
  {| Albelbv2.CreateRule := fun i =>
       inl {| cro_Rules :=
                [Some {| Actions := cri_Actions i;
                         Conditions := cri_Conditions i;
                         IsDefault := Some false;
                         Priority := Some "5";
                         RuleArn := Some "arn:rule/5" |}] |};
     Albelbv2.ModifyRule := fun i => inl {| mro_Rules := [] |};
     Albelbv2.DeleteRule := fun _ => None |}.

(** A cloud that refuses every call. *)
Definition cloudDown : Albelbv2.API :=
  {| Albelbv2.CreateRule := fun _ => inr "ServiceUnavailable";
     Albelbv2.ModifyRule := fun _ => inr "ServiceUnavailable";
     Albelbv2.DeleteRule := fun _ => Some "ServiceUnavailable" |}.

(** A cloud whose successful answers carry no rule. *)
Definition cloudSilent : Albelbv2.API :=
  {| Albelbv2.CreateRule := fun _ => inl {| cro_Rules := [] |};
     Albelbv2.ModifyRule := fun _ => inl {| mro_Rules := [] |};
     Albelbv2.DeleteRule := fun _ => None |}.

(** Current and desired in step but for the order of the conditions, the
    desired actions already carrying the target group ARN; the current
    target port is a parameter. *)
Definition synced (currentTargetPort : Z) : Rule :=
  Obs.resolved rOpts (paired 5 (cloudRule [pathCond; hostCond]) currentTargetPort).

(** The desired rule asks for a path condition the current rule lacks;
    everything else is in step. *)
Definition pathAdded : Rule :=
  Obs.resolved rOpts (paired 5 (cloudRule [hostCond]) 8080).

Definition desiredRule5 : Elbv2.Rule :=
  {| Actions := [forward None];
     Conditions := [hostCond; pathCond];
     IsDefault := Some false;
     Priority := Some "5";
     RuleArn := None |}.

Definition desiredDefaultRule : Elbv2.Rule :=
  {| Actions := [forward None];
     Conditions := [];
     IsDefault := Some true;
     Priority := Some "default";
     RuleArn := None |}.

(** A cloud that answers every create and modify call with the same
    well-formed rule. *)
Definition cloudFixed : Albelbv2.API :=
  {| Albelbv2.CreateRule := fun _ =>
       inl {| cro_Rules := [Some (cloudRule [hostCond; pathCond])] |};
     Albelbv2.ModifyRule := fun _ =>
       inl {| mro_Rules := [Some (cloudRule [hostCond; pathCond])] |};
     Albelbv2.DeleteRule := fun _ => None |}.

(** The rule [cloudOK] answers a create call for [desiredRule5] with. *)
Definition createdRule5 : Elbv2.Rule :=
  {| Actions := [forward (Some "arn:tg/web")];
     Conditions := [hostCond; pathCond];
     IsDefault := Some false;
     Priority := Some "5";
     RuleArn := Some "arn:rule/5" |}.

Definition hostMap : gmap string (list (option string)) :=
  <["host-header" := [Some "foo.com"]]> ∅.

Definition hostPathMap : gmap string (list (option string)) :=
  <["path-pattern" := [Some "/a"]]> (<["host-header" := [Some "foo.com"]]> ∅).

Definition someOpts (p : option Lb.portList) (acl : option string) : Lb.opts :=
  {| Lb.ports := p; Lb.inboundCidrs := [Some "10.0.0.0/8"]; Lb.webACLId := acl;
     Lb.managedSG := Some "sg-1"; Lb.managedInstanceSG := None |}.

End Samples.

(* ===================================================================== *)
(** * Properties                                                          *)
(* ===================================================================== *)

Import ListNotations.

(** ** Decimal printing and parsing *)

Section StrconvFacts.

Import Strconv.

Lemma small_digit (d : Z) :
  0 <= d < 10 ->
  d = 0 \/ d = 1 \/ d = 2 \/ d = 3 \/ d = 4 \/
  d = 5 \/ d = 6 \/ d = 7 \/ d = 8 \/ d = 9.
Proof. lia. Qed.

Lemma digitOf_digitChar (d : Z) :
  0 <= d < 10 -> digitOf (digitChar d) = Some d.
Proof.
  intros H. destruct (small_digit d H) as [-> | [-> | [-> | [-> | [-> |
    [-> | [-> | [-> | [-> | ->]]]]]]]]]; reflexivity.
Qed.

Lemma digitChar_not_sign (d : Z) :
  0 <= d < 10 ->
  Ascii.eqb (digitChar d) "+" = false /\
  Ascii.eqb (digitChar d) "-" = false /\
  Ascii.eqb (digitChar d) "d" = false.
Proof.
  intros H. destruct (small_digit d H) as [-> | [-> | [-> | [-> | [-> |
    [-> | [-> | [-> | [-> | ->]]]]]]]]]; repeat split; reflexivity.
Qed.

(** One turn of the parsing loop on a digit that does not overflow. *)
Lemma parseUintLoop_step (d n : Z) (rest : string) :
  0 <= d < 10 -> 0 <= n -> n * 10 + d <= maxUint64 ->
  parseUintLoop (String (digitChar d) rest) n = parseUintLoop rest (n * 10 + d).
Proof.
  intros Hd Hn Hmax. unfold maxUint64 in Hmax. cbn [parseUintLoop].
  rewrite (digitOf_digitChar d Hd). cbv zeta.
  assert (Hcut : (maxUint64 / 10 + 1 <=? n) = false).
  { apply Z.leb_gt. unfold maxUint64.
    change (2 ^ 64 - 1) with 18446744073709551615 in *.
    change (18446744073709551615 / 10 + 1) with 1844674407370955162. lia. }
  rewrite Hcut.
  rewrite (Z.mod_small (n * 10 + d) (2 ^ 64)) by lia.
  assert (H1 : (n * 10 + d <? n * 10) = false) by (apply Z.ltb_ge; lia).
  assert (H2 : (maxUint64 <? n * 10 + d) = false)
    by (apply Z.ltb_ge; unfold maxUint64; lia).
  rewrite H1, H2. reflexivity.
Qed.

(** Parsing what [formatBits] wrote reads [u] back and goes on with the
    rest of the buffer. *)
Lemma parseUintLoop_formatBits (fuel : nat) :
  forall (u : Z) (buf : string),
    0 <= u < 10 ^ Z.of_nat fuel -> u <= maxUint64 ->
    parseUintLoop (formatBits fuel u buf) 0 = parseUintLoop buf u.
Proof.
  induction fuel as [| fuel IH]; intros u buf Hu Hmax.
  - change (10 ^ Z.of_nat 0) with 1 in Hu. assert (u = 0) by lia. subst u.
    reflexivity.
  - cbn [formatBits]. destruct (u <? 10) eqn:Hlt.
    + apply Z.ltb_lt in Hlt.
      rewrite parseUintLoop_step; [reflexivity | lia | lia | unfold maxUint64 in *; lia].
    + apply Z.ltb_ge in Hlt.
      assert (Hpow : 10 ^ Z.of_nat (S fuel) = 10 * 10 ^ Z.of_nat fuel).
      { rewrite Nat2Z.inj_succ, Z.pow_succ_r by lia. reflexivity. }
      pose proof (Z.div_mod u 10 ltac:(lia)) as Hdm.
      pose proof (Z.mod_pos_bound u 10 ltac:(lia)) as Hmod.
      rewrite IH.
      * rewrite parseUintLoop_step; [ | lia | lia | lia ].
        f_equal. lia.
      * split; [apply Z.div_pos; lia | ].
        apply Z.div_lt_upper_bound; lia.
      * assert (u / 10 <= u) by (apply Z.div_le_upper_bound; lia). lia.
Qed.

(** The first byte [formatBits] writes is a decimal digit. *)
Lemma formatBits_head (fuel : nat) :
  forall (u : Z) (buf : string),
    0 <= u ->
    exists d s, 0 <= d < 10 /\ formatBits (S fuel) u buf = String (digitChar d) s.
Proof.
  induction fuel as [| fuel IH]; intros u buf Hu.
  - cbn [formatBits]. destruct (u <? 10) eqn:Hlt.
    + apply Z.ltb_lt in Hlt. exists u, buf. split; [lia | reflexivity].
    + exists (u mod 10), buf. split; [apply Z.mod_pos_bound; lia | reflexivity].
  - change (formatBits (S (S fuel)) u buf)
      with (if u <? 10 then String (digitChar u) buf
            else formatBits (S fuel) (u / 10) (String (digitChar (u mod 10)) buf)).
    destruct (u <? 10) eqn:Hlt.
    + apply Z.ltb_lt in Hlt. exists u, buf. split; [lia | reflexivity].
    + apply IH. apply Z.div_pos; lia.
Qed.

Lemma ParseInt_Sprint (n : Z) :
  0 <= n < 2 ^ 63 -> ParseInt (Sprint n) = (n, None).
Proof.
  intros Hn. unfold Sprint.
  assert (Hneg : (n <? 0) = false) by (apply Z.ltb_ge; lia). rewrite Hneg.
  assert (Hloop : parseUintLoop (formatBits 20 n EmptyString) 0 = (n, None)).
  { rewrite parseUintLoop_formatBits; [reflexivity | | unfold maxUint64; lia].
    change (10 ^ Z.of_nat 20) with 100000000000000000000.
    change (2 ^ 63) with 9223372036854775808 in Hn. lia. }
  destruct (formatBits_head 19 n EmptyString ltac:(lia)) as (d & s & Hd & Heq).
  rewrite Heq in *. unfold ParseInt.
  destruct (digitChar_not_sign d Hd) as (Hplus & Hminus & _).
  rewrite Hplus, Hminus. unfold ParseUint. rewrite Hloop.
  assert (Hc : (2 ^ 63 <=? n) = false) by (apply Z.leb_gt; lia).
  cbn [negb andb]. rewrite Hc. reflexivity.
Qed.

Lemma Sprint_not_default (n : Z) :
  0 <= n -> String.eqb (Sprint n) "default" = false.
Proof.
  intros Hn. unfold Sprint.
  assert (Hneg : (n <? 0) = false) by (apply Z.ltb_ge; lia). rewrite Hneg.
  destruct (formatBits_head 19 n EmptyString Hn) as (d & s & Hd & Heq).
  rewrite Heq. cbn [String.eqb].
  destruct (digitChar_not_sign d Hd) as (_ & _ & Hdd). rewrite Hdd. reflexivity.
Qed.

End StrconvFacts.

(** ** The three cloud-calling methods, case by case *)

Section CallFacts.

Import Elbv2 Rs Obs.

Variable ELBV2svc : Albelbv2.API.
Variable rOpts : ReconcileOptions.

Lemma create_cases (r : Rule) (tr : list effect) (d : Elbv2.Rule) (p : Z) :
  rs_desired (r_rs r) = Some d ->
  priority (Priority d) = Done p ->
  create ELBV2svc rOpts r tr =
    match Albelbv2.CreateRule ELBV2svc (createInput rOpts d p) with
    | inr err =>
        Returns (Some (Fmt "Failed Rule creation. Rule: %s | Error: %s"
                           [APrettify d; AStr err]))
                r
                (tr ++ [CloudCreateRule (createInput rOpts d p);
                        Event EventTypeWarning "ERROR"
                          (Fmt "Error creating %v rule: %s" [AInt p; AStr err])])
    | inl o =>
        match cro_Rules o with
        | [] => Panics r (tr ++ [CloudCreateRule (createInput rOpts d p)])
        | first :: _ =>
            Returns None (adopt first r) (tr ++ [CloudCreateRule (createInput rOpts d p)])
        end
    end.
Proof.
  intros Hd Hp. unfold create, bind, get, lift, emit, Eventf, update, ret.
  rewrite Hd. cbn [deref]. rewrite Hp. fold (createInput rOpts d p).
  destruct (Albelbv2.CreateRule ELBV2svc (createInput rOpts d p)) as [o | err].
  - destruct (cro_Rules o) as [| first rest]; reflexivity.
  - unfold emit. rewrite <- app_assoc. reflexivity.
Qed.

Lemma modify_cases (r : Rule) (tr : list effect) (c d : Elbv2.Rule) :
  rs_desired (r_rs r) = Some d ->
  rs_current (r_rs r) = Some c ->
  modify ELBV2svc rOpts r tr =
    match Albelbv2.ModifyRule ELBV2svc (modifyInput c d) with
    | inr err =>
        match RuleArn c with
        | None => Panics r (tr ++ [CloudModifyRule (modifyInput c d)])
        | Some arn =>
            let msg := Fmt (modifyMessage arn err) [] in
            Returns (Some msg) r
                    (tr ++ [CloudModifyRule (modifyInput c d);
                            Event EventTypeWarning "ERROR" msg])
        end
    | inl o =>
        match mro_Rules o with
        | [] =>
            Returns None (setSvcCurrent (svc_desired (r_svc r)) r)
                    (tr ++ [CloudModifyRule (modifyInput c d)])
        | first :: _ =>
            Returns None (adopt first r) (tr ++ [CloudModifyRule (modifyInput c d)])
        end
    end.
Proof.
  intros Hd Hc. unfold modify, bind, get, lift, emit, Eventf, update, ret.
  rewrite Hd, Hc. cbn [deref]. fold (modifyInput c d).
  destruct (Albelbv2.ModifyRule ELBV2svc (modifyInput c d)) as [o | err].
  - destruct (mro_Rules o) as [| first rest]; reflexivity.
  - destruct (RuleArn c) as [arn |]; cbn [deref]; [ | reflexivity].
    unfold emit. rewrite <- app_assoc. reflexivity.
Qed.

Lemma delete_cases (r : Rule) (tr : list effect) (c : Elbv2.Rule) :
  rs_current (r_rs r) = Some c ->
  IsDefault c = Some false ->
  delete ELBV2svc rOpts r tr =
    match Albelbv2.DeleteRule ELBV2svc (deleteInput c) with
    | Some err =>
        match Priority c with
        | None => Panics r (tr ++ [CloudDeleteRule (deleteInput c)])
        | Some p =>
            Returns (Some (Fmt "Failed Rule deletion. Error: %s" [AStr err])) r
                    (tr ++ [CloudDeleteRule (deleteInput c);
                            Event EventTypeWarning "ERROR"
                              (Fmt "Error deleting %s rule: %s" [AStr p; AStr err])])
        end
    | None =>
        Returns None (setDeleted true r) (tr ++ [CloudDeleteRule (deleteInput c)])
    end.
Proof.
  intros Hc Hdef. unfold delete, bind, get, lift, emit, Eventf, update, ret.
  rewrite Hc, Hdef. cbn [deref]. fold (deleteInput c).
  destruct (Albelbv2.DeleteRule ELBV2svc (deleteInput c)) as [err |];
    [ | reflexivity].
  destruct (Priority c) as [p |]; cbn [deref]; [ | reflexivity].
  unfold emit. rewrite <- app_assoc. reflexivity.
Qed.

End CallFacts.

(** ** Resolution of the target group ARN *)

Section ResolutionFacts.

Import Elbv2 Rs Obs.

Lemma lookupFrom_range (t : Tg.TargetGroups) (b : Tg.IngressBackend) :
  forall p : Z,
    0 <= p ->
    Tg.lookupFrom p t b = -1 \/
    (p <= Tg.lookupFrom p t b /\
     is_Some (t !! Z.to_nat (Tg.lookupFrom p t b - p))).
Proof.
  induction t as [| v t IH]; intros p Hp; cbn [Tg.lookupFrom].
  - left. reflexivity.
  - destruct (bool_decide (Tg.SvcName v = Tg.ServiceName b)
              && bool_decide (Tg.SvcPort v = Tg.ServicePort b)).
    + right. split; [lia | ]. replace (p - p) with 0 by lia. cbn. eauto.
    + destruct (IH (p + 1) ltac:(lia)) as [Hnone | [Hle Hsome]]; [left; exact Hnone | ].
      right. split; [lia | ].
      replace (Z.to_nat (Tg.lookupFrom (p + 1) t b - p))
        with (S (Z.to_nat (Tg.lookupFrom (p + 1) t b - (p + 1)))) by lia.
      exact Hsome.
Qed.

Lemma TargetGroupArn_eval (tgs : Tg.TargetGroups) (r : Rule) (tr : list effect) :
  TargetGroupArn tgs r tr =
    Returns (lookupArn tgs (svc_desired (r_svc r))) r
            (tr ++ lookupLog tgs (svc_desired (r_svc r))).
Proof.
  unfold TargetGroupArn, lookupArn, lookupLog, lookupArn, backendOf, bind, get.
  set (b := {| Tg.ServiceName := name (svc_desired (r_svc r));
               Tg.ServicePort := port (svc_desired (r_svc r)) |}).
  destruct (Tg.LookupByBackend tgs b <? 0) eqn:Hneg.
  - reflexivity.
  - apply Z.ltb_ge in Hneg.
    destruct (lookupFrom_range tgs b 0 ltac:(lia)) as [Hnone | [_ Hsome]].
    + unfold Tg.LookupByBackend in Hneg. lia.
    + rewrite Z.sub_0_r in Hsome. fold (Tg.LookupByBackend tgs b) in Hsome.
      destruct Hsome as [t Ht]. rewrite Ht. cbn [deref lift].
      destruct (Tg.CurrentARN t) as [arn |].
      * unfold ret. rewrite app_nil_r. reflexivity.
      * reflexivity.
Qed.

Lemma withActions_withActions (a b : list Action) (d : Elbv2.Rule) :
  withActions a (withActions b d) = withActions a d.
Proof. reflexivity. Qed.

Lemma setDesired_setDesired (x y : option Elbv2.Rule) (r : Rule) :
  setDesired x (setDesired y r) = setDesired x r.
Proof. reflexivity. Qed.

(** One turn of the loop: [Actions[i].TargetGroupArn = r.TargetGroupArn(...)]. *)
Lemma resolve_one (rOpts : ReconcileOptions) (i : nat) (r : Rule)
    (tr : list effect) (d : Elbv2.Rule) (a : Action) :
  rs_desired (r_rs r) = Some d ->
  Actions d !! i = Some a ->
  (do arn <- TargetGroupArn (TargetGroups rOpts); setDesiredActionArn i arn) r tr =
    Returns tt
      (setDesired
         (Some (withActions
                  (<[i := withTargetGroupArn
                            (lookupArn (TargetGroups rOpts) (svc_desired (r_svc r))) a]>
                     (Actions d)) d)) r)
      (tr ++ lookupLog (TargetGroups rOpts) (svc_desired (r_svc r))).
Proof.
  intros Hd Ha. unfold bind at 1. rewrite TargetGroupArn_eval.
  unfold setDesiredActionArn, bind, get, lift, update.
  rewrite Hd. cbn [deref]. rewrite Ha. reflexivity.
Qed.

(** The loop over the actions, started at index [k] with the first [k]
    actions left as they are. *)
Lemma forRange_resolve (rOpts : ReconcileOptions) (n : nat) :
  forall (k : nat) (r : Rule) (tr : list effect) (d : Elbv2.Rule),
    rs_desired (r_rs r) = Some d ->
    (k + n)%nat = length (Actions d) ->
    let arn := lookupArn (TargetGroups rOpts) (svc_desired (r_svc r)) in
    forRange (seq k n)
      (fun i =>
         do arn <- TargetGroupArn (TargetGroups rOpts);
         setDesiredActionArn i arn) r tr =
    Returns tt
      (setDesired
         (Some (withActions
                  (take k (Actions d) ++ map (withTargetGroupArn arn) (drop k (Actions d)))
                  d)) r)
      (tr ++ concat (replicate n (lookupLog (TargetGroups rOpts) (svc_desired (r_svc r))))).
Proof.
  induction n as [| n IH]; intros k r tr d Hd Hlen arn.
  - cbn [seq forRange replicate concat]. unfold ret.
    rewrite drop_ge by lia. rewrite take_ge by lia.
    cbn [map]. rewrite !app_nil_r.
    f_equal. destruct r as [s [c dd] del]. cbn in Hd. subst dd.
    unfold setDesired. cbn. do 3 f_equal. destruct d; reflexivity.
  - cbn [seq forRange].
    assert (Hk : (k < length (Actions d))%nat) by lia.
    destruct (lookup_lt_is_Some_2 (Actions d) k Hk) as [a Ha].
    unfold bind at 1.
    rewrite (resolve_one rOpts k r tr d a Hd Ha). fold arn.
    set (d' := withActions (<[k := withTargetGroupArn arn a]> (Actions d)) d).
    rewrite (IH (S k) (setDesired (Some d') r)
                (tr ++ lookupLog (TargetGroups rOpts) (svc_desired (r_svc r))) d').
    + rewrite setDesired_setDesired. subst d'. rewrite withActions_withActions.
      cbn [Actions withActions replicate concat].
      rewrite <- app_assoc. f_equal. f_equal. f_equal. f_equal.
      rewrite (take_S_r _ _ (withTargetGroupArn arn a))
        by (apply list_lookup_insert_eq; exact Hk).
      rewrite take_insert_ge by lia.
      rewrite drop_insert_lt by lia.
      rewrite (drop_S (Actions d) a k Ha). cbn [map].
      rewrite <- app_assoc. reflexivity.
    + reflexivity.
    + subst d'. cbn [Actions withActions]. rewrite length_insert. lia.
Qed.

Lemma setDesiredArns_eval (rOpts : ReconcileOptions) (r : Rule) (tr : list effect) :
  setDesiredArns rOpts r tr =
    Returns tt (resolved rOpts r) (tr ++ resolutionLog rOpts r).
Proof.
  unfold setDesiredArns, resolved, resolutionLog. unfold bind at 1. unfold get.
  destruct (rs_desired (r_rs r)) as [d |] eqn:Hd.
  - rewrite (forRange_resolve rOpts (length (Actions d)) 0 r tr d Hd eq_refl).
    rewrite take_0, drop_0. reflexivity.
  - unfold ret. rewrite app_nil_r. reflexivity.
Qed.

Lemma Reconcile_eval (ELBV2svc : Albelbv2.API) (rOpts : ReconcileOptions)
    (r : Rule) (tr : list effect) :
  Reconcile ELBV2svc rOpts r tr =
    reconcileSwitch ELBV2svc rOpts (resolved rOpts r) (tr ++ resolutionLog rOpts r).
Proof.
  unfold Reconcile. unfold bind at 1. rewrite setDesiredArns_eval. reflexivity.
Qed.

Lemma resolved_idem (rOpts : ReconcileOptions) (r : Rule) :
  resolved rOpts (resolved rOpts r) = resolved rOpts r.
Proof.
  unfold resolved. destruct (rs_desired (r_rs r)) as [d |] eqn:Hd.
  - cbn. unfold resolveRule. cbn. rewrite map_map. cbn.
    f_equal.
  - rewrite Hd. reflexivity.
Qed.

Lemma resolutionLog_resolved (rOpts : ReconcileOptions) (r : Rule) :
  resolutionLog rOpts (resolved rOpts r) = resolutionLog rOpts r.
Proof.
  unfold resolved, resolutionLog. destruct (rs_desired (r_rs r)) as [d |] eqn:Hd.
  - cbn. rewrite length_map. reflexivity.
  - rewrite Hd. reflexivity.
Qed.

End ResolutionFacts.

(** ** Comparison of condition lists *)

Section ConditionFacts.

Import Elbv2 Rs Obs.

Implicit Types (cs : list RuleCondition) (m : gmap string (list (option string))).

Lemma conditionToMapFrom_present cs :
  fieldsPresent cs ->
  forall m,
    conditionToMapFrom cs m =
      Done (foldr (fun kv acc => <[kv.1 := kv.2]> acc) m (reverse (entry <$> cs))).
Proof.
  induction 1 as [| c cs [f Hf] _ IH]; intros m.
  - reflexivity.
  - cbn [conditionToMapFrom]. rewrite Hf, IH.
    rewrite fmap_cons, reverse_cons, foldr_app. cbn [foldr].
    unfold entry at 2, fieldOf. rewrite Hf. reflexivity.
Qed.

Lemma conditionToMap_present cs :
  fieldsPresent cs ->
  conditionToMap cs = Done (list_to_map (reverse (entry <$> cs))).
Proof.
  intros H. unfold conditionToMap. rewrite (conditionToMapFrom_present cs H).
  reflexivity.
Qed.

Lemma conditionToMapFrom_Done cs :
  forall m m', conditionToMapFrom cs m = Done m' -> fieldsPresent cs.
Proof.
  induction cs as [| c cs IH]; intros m m' H.
  - constructor.
  - cbn [conditionToMapFrom] in H. destruct (Field c) as [f |] eqn:Hf; [ | discriminate].
    constructor; [rewrite Hf; eauto | eapply IH; exact H].
Qed.

(** The order of the conditions does not matter as long as no field is
    given twice. *)
Lemma conditionToMap_Permutation cs cs' :
  fieldsPresent cs ->
  NoDup (fieldOf <$> cs) ->
  cs ≡ₚ cs' ->
  conditionToMap cs' = conditionToMap cs.
Proof.
  intros Hp Hnd Hperm.
  assert (Hp' : fieldsPresent cs').
  { unfold fieldsPresent in *. rewrite <- Hperm. exact Hp. }
  rewrite !conditionToMap_present by assumption. f_equal.
  symmetry. apply list_to_map_proper.
  - rewrite fmap_reverse, reverse_Permutation, <- list_fmap_compose.
    exact Hnd.
  - rewrite !reverse_Permutation. rewrite Hperm. reflexivity.
Qed.

(** What the loop of [conditionsEqual] decides: every key of the first map
    is bound to the same value list in the second. *)
Lemma conditionsEqual_fold m1 m2 :
  map_fold
    (fun k v acc =>
       acc && match m2 !! k with
              | None => false
              | Some val => DeepEqual v val
              end) true m1 = true
  <-> m1 ⊆ m2.
Proof.
  rewrite map_subseteq_spec.
  apply (map_fold_weak_ind
           (fun (b : bool) m => b = true <-> forall k v, m !! k = Some v -> m2 !! k = Some v)).
  - split; [ | reflexivity]. intros _ k v H. rewrite lookup_empty in H. discriminate.
  - intros i x m r Hnone [IH1 IH2]. split.
    + intros H. apply andb_true_iff in H as [Hr Hx].
      intros k v Hk. destruct (decide (i = k)) as [-> | Hne].
      * rewrite lookup_insert_eq in Hk. injection Hk as <-.
        destruct (m2 !! k) as [val |]; [ | discriminate].
        unfold DeepEqual in Hx. apply bool_decide_eq_true in Hx. subst. reflexivity.
      * rewrite lookup_insert_ne in Hk by exact Hne. apply IH1; assumption.
    + intros H. apply andb_true_iff. split.
      * apply IH2. intros k v Hk. apply H.
        rewrite lookup_insert_ne; [exact Hk | ]. intros ->. congruence.
      * rewrite (H i x) by apply lookup_insert_eq.
        unfold DeepEqual. apply bool_decide_eq_true. reflexivity.
Qed.

Lemma conditionsEqual_Done cs1 cs2 m1 m2 :
  conditionToMap cs1 = Done m1 ->
  conditionToMap cs2 = Done m2 ->
  exists b, conditionsEqual cs1 cs2 = Done b /\ (b = true <-> m1 ⊆ m2).
Proof.
  intros H1 H2. unfold conditionsEqual. rewrite H1, H2.
  eexists. split; [reflexivity | apply conditionsEqual_fold].
Qed.

Lemma conditionsEqual_same cs1 cs2 :
  sameConditionSet cs1 cs2 -> conditionsEqual cs1 cs2 = Done true.
Proof.
  intros (m & H1 & H2).
  destruct (conditionsEqual_Done cs1 cs2 m m H1 H2) as (b & Hb & Hiff).
  rewrite Hb. f_equal. apply Hiff. reflexivity.
Qed.

Lemma sameConditionSet_Permutation cs cs' :
  fieldsPresent cs ->
  NoDup (fieldOf <$> cs) ->
  cs ≡ₚ cs' ->
  sameConditionSet cs' cs.
Proof.
  intros Hp Hnd Hperm. exists (list_to_map (reverse (entry <$> cs))).
  rewrite (conditionToMap_Permutation cs cs' Hp Hnd Hperm).
  split; apply conditionToMap_present; exact Hp.
Qed.

End ConditionFacts.

(** ** Priority encoding *)

Section PriorityClaims.

Import Elbv2 Rs Obs.

(** C9. Priority encoding round-trips. A desired rule built with priority 0
    carries the sentinel ["default"] (and is the default rule), one built
    with a positive priority [n] carries the decimal string of [n]; in
    both cases [priority] decodes the string back to the integer, and that
    integer is the priority a create call is issued with. (A modify call
    carries no priority at all.) *)
Theorem priority_round_trip (ELBV2svc : Albelbv2.API) (rOpts : ReconcileOptions)
    (o : NewDesiredRuleOptions) (tr : list effect) :
  0 <= o_Priority o < 2 ^ 63 ->
  exists d,
    rs_desired (r_rs (NewDesiredRule o)) = Some d /\
    IsDefault d = Some (o_Priority o =? 0) /\
    Priority d = Some (if o_Priority o =? 0 then "default"
                       else Strconv.Sprint (o_Priority o)) /\
    priority (Priority d) = Done (o_Priority o) /\
    exists rest,
      finalTrace (create ELBV2svc rOpts (NewDesiredRule o) tr) =
        tr ++ CloudCreateRule (createInput rOpts d (o_Priority o)) :: rest.
Proof.
  intros Hn. eexists. split; [reflexivity | ].
  cbn [IsDefault Priority]. split; [reflexivity | ]. split; [reflexivity | ].
  assert (Hp : priority (Some (if o_Priority o =? 0 then "default"
                               else Strconv.Sprint (o_Priority o)))
               = Done (o_Priority o)).
  { unfold priority. destruct (o_Priority o =? 0) eqn:Hz.
    - apply Z.eqb_eq in Hz. rewrite Hz. reflexivity.
    - rewrite Sprint_not_default by lia. rewrite ParseInt_Sprint by lia. reflexivity. }
  split; [exact Hp | ].
  match goal with
  | |- context [createInput rOpts ?d _] =>
      rewrite (create_cases ELBV2svc rOpts (NewDesiredRule o) tr d (o_Priority o)
                 eq_refl Hp)
  end.
  destruct (Albelbv2.CreateRule ELBV2svc _) as [out | err].
  - destruct (cro_Rules out); eexists; reflexivity.
  - eexists; reflexivity.
Qed.

Lemma priority_round_trip_witness :
  0 <= 17 < 2 ^ 63 /\
  exists d,
    rs_desired (r_rs (NewDesiredRule (Samples.desiredOptions 17))) = Some d /\
    IsDefault d = Some false /\
    Priority d = Some "17" /\
    priority (Priority d) = Done 17 /\
    exists rest,
      finalTrace (create Samples.cloudOK Samples.rOpts
                    (NewDesiredRule (Samples.desiredOptions 17)) []) =
        [] ++ CloudCreateRule (createInput Samples.rOpts d 17) :: rest.
Proof.
  split; [lia | ].
  exact (priority_round_trip Samples.cloudOK Samples.rOpts
           (Samples.desiredOptions 17) [] ltac:(cbn; lia)).
Defined.

End PriorityClaims.

(** ** What create, modify and delete do with the cloud's answer *)

Section CallClaims.

Import Elbv2 Rs Obs.

(** C10. [create] takes the first element of the rule list of a successful
    answer without looking at the length of the list: with at least one
    rule it returns without error and adopts the first one, with an empty
    list the indexing panics (after the call was issued, the receiver
    untouched). [modify], on the same empty answer, returns without
    error. The call is reached when there is a desired rule whose priority
    is set. *)
Theorem create_needs_a_rule_in_the_answer (ELBV2svc : Albelbv2.API)
    (rOpts : ReconcileOptions) (r : Rule) (tr : list effect)
    (d : Elbv2.Rule) (p : Z) (o : CreateRuleOutput) :
  rs_desired (r_rs r) = Some d ->
  priority (Priority d) = Done p ->
  Albelbv2.CreateRule ELBV2svc (createInput rOpts d p) = inl o ->
  (forall first rest,
      cro_Rules o = first :: rest ->
      create ELBV2svc rOpts r tr =
        Returns None (adopt first r) (tr ++ [CloudCreateRule (createInput rOpts d p)])) /\
  (cro_Rules o = [] ->
   create ELBV2svc rOpts r tr =
     Panics r (tr ++ [CloudCreateRule (createInput rOpts d p)])) /\
  (forall c o',
      rs_current (r_rs r) = Some c ->
      Albelbv2.ModifyRule ELBV2svc (modifyInput c d) = inl o' ->
      mro_Rules o' = [] ->
      modify ELBV2svc rOpts r tr =
        Returns None (setSvcCurrent (svc_desired (r_svc r)) r)
                (tr ++ [CloudModifyRule (modifyInput c d)])).
Proof.
  intros Hd Hp Hcall.
  pose proof (create_cases ELBV2svc rOpts r tr d p Hd Hp) as Hc.
  rewrite Hcall in Hc. repeat split.
  - intros first rest Hrules. rewrite Hrules in Hc. exact Hc.
  - intros Hrules. rewrite Hrules in Hc. exact Hc.
  - intros c o' Hcur Hmod Hrules.
    rewrite (modify_cases ELBV2svc rOpts r tr c d Hd Hcur), Hmod, Hrules.
    reflexivity.
Qed.

Lemma create_needs_a_rule_in_the_answer_witness :
  create Samples.cloudSilent Samples.rOpts
    (NewDesiredRule (Samples.desiredOptions 5)) [] =
    Panics (NewDesiredRule (Samples.desiredOptions 5))
      [CloudCreateRule
         {| cri_Actions := [Samples.forward None];
            cri_Conditions := [Samples.hostCond; Samples.pathCond];
            cri_ListenerArn := Some "arn:listener";
            cri_Priority := Some 5 |}].
Proof.
  exact (proj1 (proj2
           (create_needs_a_rule_in_the_answer Samples.cloudSilent Samples.rOpts
              (NewDesiredRule (Samples.desiredOptions 5)) [] _ 5
              {| cro_Rules := [] |} eq_refl eq_refl eq_refl)) eq_refl).
Defined.

(** C7. When the cloud accepts a modify call but answers with no rule,
    [modify] returns no error and the current rule snapshot stays what it
    was, while the desired service binding becomes the current one. *)
Theorem modify_without_rules_keeps_current (ELBV2svc : Albelbv2.API)
    (rOpts : ReconcileOptions) (r : Rule) (tr : list effect)
    (c d : Elbv2.Rule) (o : ModifyRuleOutput) :
  rs_desired (r_rs r) = Some d ->
  rs_current (r_rs r) = Some c ->
  Albelbv2.ModifyRule ELBV2svc (modifyInput c d) = inl o ->
  mro_Rules o = [] ->
  exists r',
    modify ELBV2svc rOpts r tr =
      Returns None r' (tr ++ [CloudModifyRule (modifyInput c d)]) /\
    r_rs r' = r_rs r /\
    svc_current (r_svc r') = svc_desired (r_svc r) /\
    svc_desired (r_svc r') = svc_desired (r_svc r) /\
    deleted r' = deleted r.
Proof.
  intros Hd Hc Hcall Hrules.
  rewrite (modify_cases ELBV2svc rOpts r tr c d Hd Hc), Hcall, Hrules.
  eexists. split; [reflexivity | ]. repeat split.
Qed.

Lemma modify_without_rules_keeps_current_witness :
  exists r',
    modify Samples.cloudSilent Samples.rOpts
      (Samples.paired 5 (Samples.cloudRule [Samples.hostCond]) 8080) [] =
      Returns None r'
        ([] ++ [CloudModifyRule
                  (modifyInput (Samples.cloudRule [Samples.hostCond])
                     {| Actions := [Samples.forward None];
                        Conditions := [Samples.hostCond; Samples.pathCond];
                        IsDefault := Some false;
                        Priority := Some "5";
                        RuleArn := None |})]) /\
    r_rs r' = r_rs (Samples.paired 5 (Samples.cloudRule [Samples.hostCond]) 8080) /\
    svc_current (r_svc r') = Samples.webService 8080 /\
    svc_desired (r_svc r') = Samples.webService 8080 /\
    deleted r' = false.
Proof.
  exact (modify_without_rules_keeps_current Samples.cloudSilent Samples.rOpts
           (Samples.paired 5 (Samples.cloudRule [Samples.hostCond]) 8080) []
           _ _ {| mro_Rules := [] |} eq_refl eq_refl eq_refl eq_refl).
Defined.

End CallClaims.

(** ** The reconcile switch *)

Ltac mstep :=
  cbv beta iota delta
    [Rs.bind Rs.get Rs.lift Rs.update Rs.ret Rs.emit Rs.logf Rs.Eventf
     Rs.currentPriority deref].

Ltac mstep_in H :=
  cbv beta iota delta
    [Rs.bind Rs.get Rs.lift Rs.update Rs.ret Rs.emit Rs.logf Rs.Eventf
     Rs.currentPriority deref] in H.

Section SwitchClaims.

Import Elbv2 Rs Obs.

Variable ELBV2svc : Albelbv2.API.
Variable rOpts : ReconcileOptions.

Lemma resolved_no_desired (r : Rule) :
  rs_desired (r_rs r) = None ->
  resolved rOpts r = r /\ resolutionLog rOpts r = [].
Proof. intros H. unfold resolved, resolutionLog. rewrite H. split; reflexivity. Qed.

Lemma cloudCalls_app (tr1 tr2 : list effect) :
  cloudCalls (tr1 ++ tr2) = cloudCalls tr1 ++ cloudCalls tr2.
Proof. apply List.filter_app. Qed.

(** Resolving the target group ARN logs at most; it calls no cloud. *)
Lemma cloudCalls_resolutionLog (r : Rule) :
  cloudCalls (resolutionLog rOpts r) = [].
Proof.
  unfold resolutionLog. destruct (rs_desired (r_rs r)) as [d |]; [ | reflexivity].
  induction (length (Actions d)) as [| n IH]; [reflexivity | ].
  cbn [replicate concat]. rewrite cloudCalls_app, IH, app_nil_r.
  unfold lookupLog.
  destruct (Tg.LookupByBackend _ _ <? 0); [reflexivity | ].
  destruct (lookupArn _ _); reflexivity.
Qed.

(** C5. A rule that is no longer desired and whose current rule is not the
    default one (and has its priority set, as every rule the cloud reports)
    is deleted by its ARN. When the cloud accepts, [deleted] becomes [true],
    the current snapshot stays in place, and a normal [DELETE] event
    follows the call. When the cloud refuses, a warning event is emitted, the
    wrapped error is returned and the rule, [deleted] included, is what it
    was. *)
Theorem reconcile_deletes_undesired_rule (r : Rule) (tr : list effect)
    (c : Elbv2.Rule) (p : string) :
  rs_desired (r_rs r) = None ->
  rs_current (r_rs r) = Some c ->
  IsDefault c = Some false ->
  Priority c = Some p ->
  match Albelbv2.DeleteRule ELBV2svc (deleteInput c) with
  | None =>
      exists r',
        Reconcile ELBV2svc rOpts r tr =
          Returns None r'
            (tr ++ [Log Info "Start Rule deletion.";
                    CloudDeleteRule (deleteInput c);
                    Event EventTypeNormal "DELETE" (Fmt "%s rule deleted" [AStr p]);
                    Log Info "Completed Rule deletion. Rule Priority: %s | Condition: %s"]) /\
        deleted r' = true /\
        r_rs r' = r_rs r /\
        r_svc r' = r_svc r
  | Some err =>
      Reconcile ELBV2svc rOpts r tr =
        Returns (Some (Fmt "Failed Rule deletion. Error: %s" [AStr err])) r
          (tr ++ [Log Info "Start Rule deletion.";
                  CloudDeleteRule (deleteInput c);
                  Event EventTypeWarning "ERROR"
                    (Fmt "Error deleting %s rule: %s" [AStr p; AStr err])])
  end.
Proof.
  intros Hd Hc Hdef Hp.
  rewrite Reconcile_eval.
  destruct (resolved_no_desired r Hd) as [-> ->]. rewrite app_nil_r.
  unfold reconcileSwitch. mstep. rewrite Hd, Hc, Hdef. mstep.
  rewrite (delete_cases ELBV2svc rOpts r _ c Hc Hdef).
  destruct (Albelbv2.DeleteRule ELBV2svc (deleteInput c)) as [err |].
  - rewrite Hp. rewrite <- app_assoc. reflexivity.
  - cbn [setDeleted r_rs rs_current]. rewrite Hc. mstep. rewrite Hp. mstep.
    eexists. split.
    { rewrite <- !app_assoc. reflexivity. }
    repeat split.
Qed.

(** C4. The default rule is never touched through the cloud. Whatever the
    current state, a desired default rule makes [Reconcile] return without
    error and without a cloud call, the current rule being replaced by the
    desired one (as it stands once its actions carry the resolved target
    group ARN). A current default rule that is no longer desired is left
    alone as well, by [Reconcile] and by [delete] itself. *)
Theorem reconcile_spares_default_rule (r : Rule) (tr : list effect) :
  (forall d,
      rs_desired (r_rs r) = Some d ->
      IsDefault d = Some true ->
      exists r' tr',
        Reconcile ELBV2svc rOpts r tr = Returns None r' tr' /\
        cloudCalls tr' = cloudCalls tr /\
        rs_desired (r_rs r') =
          Some (resolveRule (lookupArn (TargetGroups rOpts) (svc_desired (r_svc r))) d) /\
        rs_current (r_rs r') = rs_desired (r_rs r') /\
        r_svc r' = r_svc r /\
        deleted r' = deleted r) /\
  (forall c,
      rs_desired (r_rs r) = None ->
      rs_current (r_rs r) = Some c ->
      IsDefault c = Some true ->
      Reconcile ELBV2svc rOpts r tr = Returns None r tr /\
      exists tr',
        delete ELBV2svc rOpts r tr = Returns None r tr' /\
        cloudCalls tr' = cloudCalls tr).
Proof.
  split.
  - intros d Hd Hdef. rewrite Reconcile_eval.
    unfold reconcileSwitch, resolved. rewrite Hd. mstep.
    cbn [setDesired r_rs rs_desired resolveRule withActions IsDefault].
    rewrite Hdef. mstep.
    eexists. eexists. split; [reflexivity | ].
    split.
    { rewrite cloudCalls_app, cloudCalls_resolutionLog, app_nil_r. reflexivity. }
    repeat split.
  - intros c Hd Hc Hdef. split.
    + rewrite Reconcile_eval.
      destruct (resolved_no_desired r Hd) as [-> ->]. rewrite app_nil_r.
      unfold reconcileSwitch. mstep. rewrite Hd, Hc, Hdef. reflexivity.
    + unfold delete. mstep. rewrite Hc, Hdef. mstep.
      eexists. split; [reflexivity | ].
      rewrite cloudCalls_app. cbn. apply app_nil_r.
Qed.

(** [needsModification] on a rule with both sides, laid out. *)
Lemma needsModification_eval (r : Rule) (tr : list effect) (c d : Elbv2.Rule) :
  rs_current (r_rs r) = Some c ->
  rs_desired (r_rs r) = Some d ->
  needsModification r tr =
    if bool_decide (Actions c = Actions d) then
      match conditionsEqual (Conditions c) (Conditions d) with
      | Panic => Panics r tr
      | Done false =>
          Returns true r (tr ++ [Log Debug "Conditions needs to be changed (%v != %v)"])
      | Done true =>
          if String.eqb (name (svc_current (r_svc r))) (name (svc_desired (r_svc r))) then
            if (targetPort (svc_current (r_svc r)) =? targetPort (svc_desired (r_svc r)))
               || (targetPort (svc_current (r_svc r)) =? 0)
            then Returns false r tr
            else Returns true r
                   (tr ++ [Log Debug "Target port needs to be changed (%v != %v)"])
          else Returns true r (tr ++ [Log Debug "SvcName needs to be changed (%v != %v)"])
      end
    else Returns true r (tr ++ [Log Debug "Actions needs to be changed (%v != %v)"]).
Proof.
  intros Hc Hd. unfold needsModification. mstep. rewrite Hc, Hd. mstep.
  unfold DeepEqual at 1.
  destruct (bool_decide (Actions c = Actions d)); [ | reflexivity].
  cbn [negb].
  destruct (conditionsEqual (Conditions c) (Conditions d)) as [[|] |]; try reflexivity.
  cbn [negb].
  destruct (String.eqb _ _); [ | reflexivity]. cbn [negb].
  destruct (targetPort (svc_current (r_svc r)) =? targetPort (svc_desired (r_svc r)));
    destruct (targetPort (svc_current (r_svc r)) =? 0); reflexivity.
Qed.

(** The checks of [needsModification], in terms of what [conditionsEqual]
    answers. With a current and a desired rule they are tried in this order
    and the answer is [true] at the first that holds, which the one debug
    line then written names: the action lists are not deeply equal;
    [conditionsEqual] answers [false]; the service names differ; the target
    ports differ and the current one is not zero. Otherwise the answer is
    [false] and nothing is written; so a current target port of zero never
    asks for a modification on its own. Without a current rule the answer
    is [true] at once. *)
Lemma needsModification_checks_in_order (r : Rule) (tr : list effect) :
  (rs_current (r_rs r) = None ->
   needsModification r tr = Returns true r (tr ++ [Log Debug "Current is nil"])) /\
  (forall c d,
      rs_current (r_rs r) = Some c ->
      rs_desired (r_rs r) = Some d ->
      let cur := svc_current (r_svc r) in
      let des := svc_desired (r_svc r) in
      (Actions c <> Actions d ->
       needsModification r tr =
         Returns true r (tr ++ [Log Debug "Actions needs to be changed (%v != %v)"])) /\
      (Actions c = Actions d ->
       conditionsEqual (Conditions c) (Conditions d) = Done false ->
       needsModification r tr =
         Returns true r (tr ++ [Log Debug "Conditions needs to be changed (%v != %v)"])) /\
      (Actions c = Actions d ->
       conditionsEqual (Conditions c) (Conditions d) = Done true ->
       name cur <> name des ->
       needsModification r tr =
         Returns true r (tr ++ [Log Debug "SvcName needs to be changed (%v != %v)"])) /\
      (Actions c = Actions d ->
       conditionsEqual (Conditions c) (Conditions d) = Done true ->
       name cur = name des ->
       targetPort cur <> targetPort des ->
       targetPort cur <> 0 ->
       needsModification r tr =
         Returns true r (tr ++ [Log Debug "Target port needs to be changed (%v != %v)"])) /\
      (Actions c = Actions d ->
       conditionsEqual (Conditions c) (Conditions d) = Done true ->
       name cur = name des ->
       targetPort cur = targetPort des \/ targetPort cur = 0 ->
       needsModification r tr = Returns false r tr)).
Proof.
  split.
  - intros Hc. unfold needsModification. mstep. rewrite Hc. reflexivity.
  - intros c d Hc Hd cur des. subst cur des.
    rewrite (needsModification_eval r tr c d Hc Hd).
    repeat split.
    + intros Hne. rewrite (bool_decide_eq_false_2 _ Hne). reflexivity.
    + intros Ha Hce. rewrite (bool_decide_eq_true_2 _ Ha), Hce. reflexivity.
    + intros Ha Hce Hn. rewrite (bool_decide_eq_true_2 _ Ha), Hce.
      apply String.eqb_neq in Hn. rewrite Hn. reflexivity.
    + intros Ha Hce Hn Htp Hz. rewrite (bool_decide_eq_true_2 _ Ha), Hce.
      apply String.eqb_eq in Hn. rewrite Hn.
      apply Z.eqb_neq in Htp, Hz. rewrite Htp, Hz. reflexivity.
    + intros Ha Hce Hn Htp. rewrite (bool_decide_eq_true_2 _ Ha), Hce.
      apply String.eqb_eq in Hn. rewrite Hn.
      destruct Htp as [Htp | Hz].
      * apply Z.eqb_eq in Htp. rewrite Htp. reflexivity.
      * apply Z.eqb_eq in Hz. rewrite Hz. rewrite orb_true_r. reflexivity.
Qed.

(** C3, as the code has it. When the current state of a rule already is
    what is desired (and the desired rule says whether it is the default
    one), [Reconcile] calls no cloud and returns no error. The current rule
    is left as it is when the desired rule is not the default one; a
    desired default rule replaces the current one, as always. *)
Theorem reconcile_in_sync_calls_no_cloud (r : Rule) (tr : list effect)
    (c d : Elbv2.Rule) (isDefault : bool) :
  inSync rOpts r c d ->
  IsDefault d = Some isDefault ->
  exists r' tr',
    Reconcile ELBV2svc rOpts r tr = Returns None r' tr' /\
    cloudCalls tr' = cloudCalls tr /\
    rs_current (r_rs r') = (if isDefault then rs_desired (r_rs r') else Some c) /\
    r_svc r' = r_svc r /\
    deleted r' = deleted r.
Proof.
  intros (Hc & Hd & Hact & Hcond & Hsvc) Hdef.
  rewrite Reconcile_eval.
  assert (Hcalls : cloudCalls (tr ++ resolutionLog rOpts r) = cloudCalls tr)
    by (rewrite cloudCalls_app, cloudCalls_resolutionLog; apply app_nil_r).
  set (arn := lookupArn (TargetGroups rOpts) (svc_desired (r_svc r))) in *.
  assert (Hr : resolved rOpts r = setDesired (Some (resolveRule arn d)) r)
    by (unfold resolved; rewrite Hd; reflexivity).
  rewrite Hr. unfold reconcileSwitch. mstep.
  cbn [setDesired r_rs rs_desired rs_current resolveRule withActions IsDefault].
  rewrite Hdef. mstep. destruct isDefault.
  - eexists. eexists. split; [reflexivity | ]. split; [exact Hcalls | ].
    repeat split.
  - rewrite Hc.
    rewrite (needsModification_eval (setDesired (Some (resolveRule arn d)) r)
               (tr ++ resolutionLog rOpts r) c (resolveRule arn d) Hc eq_refl).
    rewrite (bool_decide_eq_true_2 _ Hact).
    cbn [Conditions resolveRule withActions].
    rewrite (conditionsEqual_same _ _ Hcond).
    cbn [setDesired r_svc]. rewrite Hsvc.
    rewrite String.eqb_refl, Z.eqb_refl. cbn [orb].
    eexists. eexists. split; [reflexivity | ]. split; [exact Hcalls | ].
    split; [exact Hc | ]. split; reflexivity.
Qed.

(** Whenever the switch returns an error, the receiver is what it was and
    the switch, run again on it, does the same things and returns the same
    error. *)
Lemma reconcileSwitch_error (r1 : Rule) (tr1 tr2 : list effect)
    (e : error) (r' : Rule) (tr' : list effect) :
  reconcileSwitch ELBV2svc rOpts r1 tr1 = Returns (Some e) r' tr' ->
  r' = r1 /\
  exists eff,
    tr' = tr1 ++ eff /\
    reconcileSwitch ELBV2svc rOpts r1 tr2 = Returns (Some e) r1 (tr2 ++ eff).
Proof.
  intros H.
  unfold reconcileSwitch, create, modify, delete, needsModification in *.
  mstep. mstep_in H.
  repeat match type of H with
         | context [match ?x with _ => _ end] =>
             lazymatch x with
             | context [match _ with _ => _ end] => fail
             | _ => destruct x eqn:?; mstep; mstep_in H; try discriminate H
             end
         end.
  all: injection H; intros; subst.
  all: split; [reflexivity | ].
  all: eexists; split; [rewrite <- ?app_assoc; reflexivity | ].
  all: rewrite <- ?app_assoc; reflexivity.
Qed.

(** Up to its one cloud call the switch does not depend on the cloud: when
    it returned an error, it issued one call, and it issues that same call
    again whatever cloud it is run against. *)
Lemma reconcileSwitch_error_call (cloud' : Albelbv2.API) (r1 : Rule)
    (tr1 tr2 : list effect) (e : error) (r' : Rule) (tr' : list effect) :
  reconcileSwitch ELBV2svc rOpts r1 tr1 = Returns (Some e) r' tr' ->
  exists call,
    cloudCalls tr' = cloudCalls tr1 ++ [call] /\
    cloudCalls (finalTrace (reconcileSwitch cloud' rOpts r1 tr2)) =
      cloudCalls tr2 ++ [call].
Proof.
  intros H.
  unfold reconcileSwitch, create, modify, delete, needsModification, cloudCalls in *.
  mstep. mstep_in H.
  repeat match type of H with
         | context [match ?x with _ => _ end] =>
             lazymatch x with
             | context [match _ with _ => _ end] => fail
             | _ => destruct x eqn:?; mstep; mstep_in H; try discriminate H
             end
         end.
  all: injection H; intros; subst.
  all: eexists; split;
    [ rewrite !List.filter_app; cbn [List.filter isCloudCall];
      rewrite ?app_nil_r; reflexivity | ].
  all: repeat match goal with
              | |- context [match ?x with _ => _ end] =>
                  lazymatch x with
                  | context [match _ with _ => _ end] => fail
                  | _ => destruct x; mstep
                  end
              end.
  all: cbn [finalTrace]; rewrite !List.filter_app; cbn [List.filter isCloudCall];
    rewrite ?app_nil_r; reflexivity.
Qed.

(** Whenever [Reconcile] returns an error, the rule differs from the one it
    was given at most by the target group ARN stamped on the desired
    actions; a second pass over it issues the same one cloud call, whatever
    the cloud then answers, and against the same cloud it ends the same
    way. *)
Lemma Reconcile_error_retry (r : Rule) (tr : list effect)
    (e : error) (r' : Rule) (tr' : list effect) :
  Reconcile ELBV2svc rOpts r tr = Returns (Some e) r' tr' ->
  r' = resolved rOpts r /\
  exists eff call,
    tr' = tr ++ eff /\
    cloudCalls eff = [call] /\
    (forall tr2,
        Reconcile ELBV2svc rOpts r' tr2 = Returns (Some e) r' (tr2 ++ eff)) /\
    (forall cloud' tr2,
        cloudCalls (finalTrace (Reconcile cloud' rOpts r' tr2)) =
          cloudCalls tr2 ++ [call]).
Proof.
  intros H. rewrite Reconcile_eval in H.
  destruct (reconcileSwitch_error _ _ [] _ _ _ H) as (-> & eff & -> & _).
  split; [reflexivity | ].
  destruct (reconcileSwitch_error_call ELBV2svc _ _ [] _ _ _ H) as (call & Hcall & _).
  rewrite !cloudCalls_app, cloudCalls_resolutionLog, app_nil_r in Hcall.
  apply app_inv_head in Hcall.
  exists (resolutionLog rOpts r ++ eff), call.
  split; [symmetry; apply app_assoc | ].
  split; [rewrite cloudCalls_app, cloudCalls_resolutionLog; exact Hcall | ].
  split.
  + intros tr2. rewrite Reconcile_eval, resolved_idem, resolutionLog_resolved.
    destruct (reconcileSwitch_error _ _ (tr2 ++ resolutionLog rOpts r) _ _ _ H)
      as (_ & eff' & Heq & Hrun).
    apply app_inv_head in Heq. subst eff'.
    rewrite Hrun, <- app_assoc. reflexivity.
  + intros cloud' tr2. rewrite Reconcile_eval, resolved_idem, resolutionLog_resolved.
    destruct (reconcileSwitch_error_call cloud' _ _ (tr2 ++ resolutionLog rOpts r) _ _ _ H)
      as (call' & Hcall' & Hrun).
    rewrite !cloudCalls_app, cloudCalls_resolutionLog, app_nil_r in Hcall'.
    apply app_inv_head in Hcall'. rewrite Hcall in Hcall'. injection Hcall' as <-.
    rewrite Hrun, cloudCalls_app, cloudCalls_resolutionLog, app_nil_r. reflexivity.
Qed.

(** C6. A refused create or modify call changes nothing in the rule: the
    wrapped error is returned (and a warning event emitted) with the
    current rule and the current service binding as they were. (The
    priority of the desired rule and the ARN of the current one must be
    set: [create] decodes the first before it calls, [modify] prints the
    second in its message.) A pass of [Reconcile] that reaches the create
    or the modify call and has it refused returns that error, with the rule
    changed at most in the target group ARN stamped on the desired actions.
    A second pass over the rule it leaves issues the same one cloud call,
    whatever the cloud then answers, and against the same cloud it ends the
    same way. *)
Theorem refused_call_leaves_rule_for_retry (r : Rule) (tr : list effect) :
  let arn := lookupArn (TargetGroups rOpts) (svc_desired (r_svc r)) in
  let r1 := resolved rOpts r in
  (forall d p err,
      rs_desired (r_rs r) = Some d ->
      priority (Priority d) = Done p ->
      Albelbv2.CreateRule ELBV2svc (createInput rOpts d p) = inr err ->
      create ELBV2svc rOpts r tr =
        Returns (Some (Fmt "Failed Rule creation. Rule: %s | Error: %s"
                           [APrettify d; AStr err]))
                r
                (tr ++ [CloudCreateRule (createInput rOpts d p);
                        Event EventTypeWarning "ERROR"
                          (Fmt "Error creating %v rule: %s" [AInt p; AStr err])])) /\
  (forall c d a err,
      rs_desired (r_rs r) = Some d ->
      rs_current (r_rs r) = Some c ->
      RuleArn c = Some a ->
      Albelbv2.ModifyRule ELBV2svc (modifyInput c d) = inr err ->
      modify ELBV2svc rOpts r tr =
        Returns (Some (Fmt (modifyMessage a err) []))
                r
                (tr ++ [CloudModifyRule (modifyInput c d);
                        Event EventTypeWarning "ERROR"
                          (Fmt (modifyMessage a err) [])])) /\
  (rs_current (r_rs r1) = rs_current (r_rs r) /\
   r_svc r1 = r_svc r /\
   deleted r1 = deleted r) /\
  (forall d p err,
      rs_current (r_rs r) = None ->
      rs_desired (r_rs r) = Some d ->
      IsDefault d = Some false ->
      priority (Priority d) = Done p ->
      Albelbv2.CreateRule ELBV2svc (createInput rOpts (resolveRule arn d) p) = inr err ->
      Reconcile ELBV2svc rOpts r tr =
        Returns (Some (Fmt "Failed Rule creation. Rule: %s | Error: %s"
                           [APrettify (resolveRule arn d); AStr err]))
                r1
                (tr ++ resolutionLog rOpts r ++
                 [Log Info "Start Rule creation.";
                  CloudCreateRule (createInput rOpts (resolveRule arn d) p);
                  Event EventTypeWarning "ERROR"
                    (Fmt "Error creating %v rule: %s" [AInt p; AStr err])])) /\
  (forall c d a err tr1,
      rs_current (r_rs r) = Some c ->
      rs_desired (r_rs r) = Some d ->
      IsDefault d = Some false ->
      RuleArn c = Some a ->
      needsModification r1 (tr ++ resolutionLog rOpts r) = Returns true r1 tr1 ->
      Albelbv2.ModifyRule ELBV2svc (modifyInput c (resolveRule arn d)) = inr err ->
      Reconcile ELBV2svc rOpts r tr =
        Returns (Some (Fmt (modifyMessage a err) []))
                r1
                (tr1 ++ [CloudModifyRule (modifyInput c (resolveRule arn d));
                         Event EventTypeWarning "ERROR"
                           (Fmt (modifyMessage a err) [])])) /\
  (forall e r' tr',
      Reconcile ELBV2svc rOpts r tr = Returns (Some e) r' tr' ->
      r' = r1 /\
      exists eff call,
        tr' = tr ++ eff /\
        cloudCalls eff = [call] /\
        (forall tr2,
            Reconcile ELBV2svc rOpts r' tr2 = Returns (Some e) r' (tr2 ++ eff)) /\
        (forall cloud' tr2,
            cloudCalls (finalTrace (Reconcile cloud' rOpts r' tr2)) =
              cloudCalls tr2 ++ [call])).
Proof.
  intros arn r1.
  assert (Hr : forall d, rs_desired (r_rs r) = Some d ->
                         r1 = setDesired (Some (resolveRule arn d)) r)
    by (intros d Hd; unfold r1, resolved; rewrite Hd; reflexivity).
  split; [ | split; [ | split; [ | split; [ | split]]]].
  - intros d p err Hd Hp Hcall.
    rewrite (create_cases ELBV2svc rOpts r tr d p Hd Hp), Hcall. reflexivity.
  - intros c d a err Hd Hc Harn Hcall.
    rewrite (modify_cases ELBV2svc rOpts r tr c d Hd Hc), Hcall, Harn. reflexivity.
  - unfold r1, resolved. destruct (rs_desired (r_rs r)); repeat split.
  - intros d p err Hc Hd Hdef Hp Hcall.
    rewrite Reconcile_eval. fold r1. rewrite (Hr d Hd).
    unfold reconcileSwitch. mstep.
    cbn [setDesired r_rs rs_desired rs_current resolveRule withActions IsDefault].
    rewrite Hdef. mstep. rewrite Hc. mstep.
    rewrite (create_cases ELBV2svc rOpts (setDesired (Some (resolveRule arn d)) r) _
               (resolveRule arn d) p eq_refl Hp), Hcall.
    rewrite <- !app_assoc. reflexivity.
  - intros c d a err tr1 Hc Hd Hdef Harn Hnm Hcall.
    rewrite Reconcile_eval. fold r1. rewrite (Hr d Hd) in *.
    unfold reconcileSwitch. mstep.
    cbn [setDesired r_rs rs_desired rs_current resolveRule withActions IsDefault].
    rewrite Hdef. mstep. rewrite Hc. mstep. rewrite Hnm.
    rewrite (modify_cases ELBV2svc rOpts (setDesired (Some (resolveRule arn d)) r) tr1
               c (resolveRule arn d) eq_refl Hc), Hcall, Harn.
    reflexivity.
  - intros e r' tr' H. exact (Reconcile_error_retry r tr e r' tr' H).
Qed.

End SwitchClaims.

Section SwitchWitnesses.

Import Elbv2 Rs Obs Samples.

Lemma needsModification_checks_in_order_witness :
  needsModification (synced 0) [] = Returns false (synced 0) [] /\
  needsModification (synced 9090) [] =
    Returns true (synced 9090)
      ([] ++ [Log Debug "Target port needs to be changed (%v != %v)"]).
Proof.
  split.
  - refine (proj2 (proj2 (proj2 (proj2
             (proj2 (needsModification_checks_in_order (synced 0) [])
                (cloudRule [pathCond; hostCond])
                (resolveRule (Some "arn:tg/web") desiredRule5)
                eq_refl eq_refl))))
             eq_refl _ eq_refl (or_intror eq_refl)).
    vm_compute. reflexivity.
  - refine (proj1 (proj2 (proj2 (proj2
             (proj2 (needsModification_checks_in_order (synced 9090) [])
                (cloudRule [pathCond; hostCond])
                (resolveRule (Some "arn:tg/web") desiredRule5)
                eq_refl eq_refl))))
             eq_refl _ eq_refl _ _).
    + vm_compute. reflexivity.
    + cbn. lia.
    + cbn. lia.
Defined.

Lemma sample_conditions_same :
  sameConditionSet [pathCond; hostCond] [hostCond; pathCond].
Proof.
  apply (sameConditionSet_Permutation [hostCond; pathCond] [pathCond; hostCond]).
  - repeat constructor; cbn; eauto.
  - cbn. apply NoDup_cons. split; [ | apply NoDup_singleton].
    intros Hin. apply list_elem_of_singleton in Hin. discriminate Hin.
  - apply perm_swap.
Defined.

Lemma sample_in_sync :
  inSync rOpts (paired 5 (cloudRule [pathCond; hostCond]) 8080)
    (cloudRule [pathCond; hostCond]) desiredRule5.
Proof.
  repeat split. exact sample_conditions_same.
Defined.

Lemma reconcile_in_sync_calls_no_cloud_witness :
  exists r' tr',
    Reconcile cloudDown rOpts (paired 5 (cloudRule [pathCond; hostCond]) 8080) [] =
      Returns None r' tr' /\
    cloudCalls tr' = cloudCalls [] /\
    rs_current (r_rs r') = Some (cloudRule [pathCond; hostCond]) /\
    r_svc r' = r_svc (paired 5 (cloudRule [pathCond; hostCond]) 8080) /\
    deleted r' = false.
Proof.
  exact (reconcile_in_sync_calls_no_cloud cloudDown rOpts
           (paired 5 (cloudRule [pathCond; hostCond]) 8080) []
           (cloudRule [pathCond; hostCond]) desiredRule5 false
           sample_in_sync eq_refl).
Defined.

(** Being in step does not always leave the current rule alone: the current
    default rule the cloud reports is in step with the desired one, and
    [Reconcile] still replaces it (the rule ARN it carried is gone). *)
Lemma in_sync_default_rule_is_replaced :
  inSync rOpts (paired 0 cloudDefaultRule 8080) cloudDefaultRule desiredDefaultRule /\
  exists r' tr',
    Reconcile cloudOK rOpts (paired 0 cloudDefaultRule 8080) [] = Returns None r' tr' /\
    cloudCalls tr' = [] /\
    rs_current (r_rs (paired 0 cloudDefaultRule 8080)) = Some cloudDefaultRule /\
    rs_current (r_rs r') = Some (resolveRule (Some "arn:tg/web") desiredDefaultRule) /\
    rs_current (r_rs r') <> rs_current (r_rs (paired 0 cloudDefaultRule 8080)).
Proof.
  split.
  - repeat split. exists ∅. split; reflexivity.
  - eexists. eexists. split; [vm_compute; reflexivity | ].
    repeat split. cbn. discriminate.
Qed.

Lemma reconcile_deletes_undesired_rule_witness :
  (exists r',
      Reconcile cloudOK rOpts (onlyCurrent (cloudRule [hostCond])) [] =
        Returns None r'
          ([] ++ [Log Info "Start Rule deletion.";
                  CloudDeleteRule {| dri_RuleArn := Some "arn:rule/5" |};
                  Event EventTypeNormal "DELETE" (Fmt "%s rule deleted" [AStr "5"]);
                  Log Info "Completed Rule deletion. Rule Priority: %s | Condition: %s"]) /\
      deleted r' = true /\
      r_rs r' = r_rs (onlyCurrent (cloudRule [hostCond])) /\
      r_svc r' = r_svc (onlyCurrent (cloudRule [hostCond]))) /\
  Reconcile cloudDown rOpts (onlyCurrent (cloudRule [hostCond])) [] =
    Returns (Some (Fmt "Failed Rule deletion. Error: %s" [AStr "ServiceUnavailable"]))
      (onlyCurrent (cloudRule [hostCond]))
      ([] ++ [Log Info "Start Rule deletion.";
              CloudDeleteRule {| dri_RuleArn := Some "arn:rule/5" |};
              Event EventTypeWarning "ERROR"
                (Fmt "Error deleting %s rule: %s" [AStr "5"; AStr "ServiceUnavailable"])]).
Proof.
  split.
  - exact (reconcile_deletes_undesired_rule cloudOK rOpts
             (onlyCurrent (cloudRule [hostCond])) [] (cloudRule [hostCond]) "5"
             eq_refl eq_refl eq_refl eq_refl).
  - exact (reconcile_deletes_undesired_rule cloudDown rOpts
             (onlyCurrent (cloudRule [hostCond])) [] (cloudRule [hostCond]) "5"
             eq_refl eq_refl eq_refl eq_refl).
Defined.

Lemma reconcile_spares_default_rule_witness :
  (exists r' tr',
      Reconcile cloudDown rOpts (paired 0 (cloudRule [hostCond]) 8080) [] =
        Returns None r' tr' /\
      cloudCalls tr' = cloudCalls [] /\
      rs_desired (r_rs r') = Some (resolveRule (Some "arn:tg/web") desiredDefaultRule) /\
      rs_current (r_rs r') = rs_desired (r_rs r') /\
      r_svc r' = r_svc (paired 0 (cloudRule [hostCond]) 8080) /\
      deleted r' = false) /\
  Reconcile cloudDown rOpts (onlyCurrent cloudDefaultRule) [] =
    Returns None (onlyCurrent cloudDefaultRule) [].
Proof.
  split.
  - exact (proj1 (reconcile_spares_default_rule cloudDown rOpts
                    (paired 0 (cloudRule [hostCond]) 8080) [])
             desiredDefaultRule eq_refl eq_refl).
  - exact (proj1 (proj2 (reconcile_spares_default_rule cloudDown rOpts
                           (onlyCurrent cloudDefaultRule) [])
                    cloudDefaultRule eq_refl eq_refl eq_refl)).
Defined.

Lemma refused_call_leaves_rule_for_retry_witness :
  Reconcile cloudDown rOpts (NewDesiredRule (desiredOptions 5)) [] =
    Returns (Some (Fmt "Failed Rule creation. Rule: %s | Error: %s"
                       [APrettify (resolveRule (Some "arn:tg/web") desiredRule5);
                        AStr "ServiceUnavailable"]))
      (resolved rOpts (NewDesiredRule (desiredOptions 5)))
      ([] ++ resolutionLog rOpts (NewDesiredRule (desiredOptions 5)) ++
       [Log Info "Start Rule creation.";
        CloudCreateRule
          (createInput rOpts (resolveRule (Some "arn:tg/web") desiredRule5) 5);
        Event EventTypeWarning "ERROR"
          (Fmt "Error creating %v rule: %s" [AInt 5; AStr "ServiceUnavailable"])]) /\
  Reconcile cloudDown rOpts (paired 5 (cloudRule [hostCond]) 9090) [] =
    Returns (Some (Fmt "Error modifying rule arn:rule/5: ServiceUnavailable" []))
      (resolved rOpts (paired 5 (cloudRule [hostCond]) 9090))
      ([Log Debug "Target port needs to be changed (%v != %v)"] ++
       [CloudModifyRule
          (modifyInput (cloudRule [hostCond])
             (resolveRule (Some "arn:tg/web") desiredRule5));
        Event EventTypeWarning "ERROR"
          (Fmt "Error modifying rule arn:rule/5: ServiceUnavailable" [])]) /\
  rs_current (r_rs (resolved rOpts (paired 5 (cloudRule [hostCond]) 9090))) =
    Some (cloudRule [hostCond]) /\
  svc_current (r_svc (resolved rOpts (paired 5 (cloudRule [hostCond]) 9090))) =
    webService 9090.
Proof.
  split; [ | split; [ | split]].
  - exact (proj1 (proj2 (proj2 (proj2
             (refused_call_leaves_rule_for_retry cloudDown rOpts
                (NewDesiredRule (desiredOptions 5)) []))))
             desiredRule5 5 "ServiceUnavailable"
             eq_refl eq_refl eq_refl eq_refl eq_refl).
  - refine (proj1 (proj2 (proj2 (proj2 (proj2
              (refused_call_leaves_rule_for_retry cloudDown rOpts
                 (paired 5 (cloudRule [hostCond]) 9090) [])))))
              (cloudRule [hostCond]) desiredRule5 "arn:rule/5" "ServiceUnavailable"
              [Log Debug "Target port needs to be changed (%v != %v)"]
              eq_refl eq_refl eq_refl eq_refl _ eq_refl).
    vm_compute. reflexivity.
  - exact (proj1 (proj1 (proj2 (proj2
             (refused_call_leaves_rule_for_retry cloudDown rOpts
                (paired 5 (cloudRule [hostCond]) 9090) []))))).
  - reflexivity.
Defined.

End SwitchWitnesses.

(** ** The change mask of the load-balancer options *)

Section OptionClaims.

Import Lb Obs.

Lemma insertPort_Permutation (x : Z) (l : portList) :
  insertPort x l ≡ₚ x :: l.
Proof.
  induction l as [| y l IH]; cbn [insertPort]; [reflexivity | ].
  destruct (x <=? y); [reflexivity | ].
  rewrite IH. apply perm_swap.
Qed.

Lemma sortPorts_Permutation (l : portList) : sortPorts l ≡ₚ l.
Proof.
  induction l as [| x l IH]; cbn [sortPorts]; [reflexivity | ].
  rewrite insertPort_Permutation, IH. reflexivity.
Qed.

Lemma insertPort_Sorted (x : Z) (l : portList) :
  Sorted Z.le l -> Sorted Z.le (insertPort x l).
Proof.
  induction 1 as [| y l Hs IH Hhd]; cbn [insertPort].
  - repeat constructor.
  - destruct (x <=? y) eqn:Hxy.
    + apply Z.leb_le in Hxy. repeat constructor; assumption.
    + apply Z.leb_gt in Hxy. constructor; [exact IH | ].
      destruct l as [| z l]; cbn [insertPort] in *.
      * constructor. lia.
      * destruct (x <=? z); constructor; [lia | ].
        inversion Hhd; subst. assumption.
Qed.

(** [Sort] does sort. *)
Lemma sortPorts_Sorted (l : portList) : Sorted Z.le (sortPorts l).
Proof.
  induction l as [| x l IH]; cbn [sortPorts]; [constructor | ].
  apply insertPort_Sorted. exact IH.
Qed.

Lemma isNil_false {A} (p : option A) : isNil p = false <-> p <> None.
Proof. destruct p; cbn; split; congruence. Qed.

(** C8. The mask [needsModification] returns for a pair of options is the
    bitwise OR of three flags that are decided one by one.
    [inboundCidrsModified] and [portsModified] need the current ports and
    the current managed security group to be there; then the first is set
    exactly when the hashes of the two CIDR lists differ, the second
    exactly when the two port lists differ once sorted.
    [webACLAssociationModified] is set exactly when one side has a web ACL
    id and the other has none, or both have one and the two differ. Each
    flag is its own bit of the mask. *)
Theorem options_change_mask (Hash : list (option string) -> string) (o : options) :
  let cur := current o in
  let des := desired o in
  let populated := ports cur <> None /\ managedSG cur <> None in
  exists cidrs portsDiffer acl : bool,
    snd (needsModification Hash o) =
      Z.lor (Z.lor (flagIf cidrs inboundCidrsModified)
                   (flagIf portsDiffer portsModified))
            (flagIf acl webACLAssociationModified) /\
    (cidrs = true <->
       populated /\ Hash (inboundCidrs cur) <> Hash (inboundCidrs des)) /\
    (portsDiffer = true <->
       populated /\ Sort (ports des) <> Sort (ports cur)) /\
    (acl = true <->
       (webACLId des <> None /\ webACLId cur = None) \/
       (webACLId des = None /\ webACLId cur <> None) \/
       (exists c d, webACLId cur = Some c /\ webACLId des = Some d /\ c <> d)) /\
    Z.testbit (snd (needsModification Hash o)) 5 = cidrs /\
    Z.testbit (snd (needsModification Hash o)) 6 = portsDiffer /\
    Z.testbit (snd (needsModification Hash o)) 8 = acl.
Proof.
  intros cur des populated. subst cur des populated.
  set (pop := negb (isNil (ports (current o))) && negb (isNil (managedSG (current o)))).
  exists (pop && negb (String.eqb (Hash (inboundCidrs (current o)))
                                  (Hash (inboundCidrs (desired o))))),
         (pop && negb (reflectDeepEqual (Sort (ports (desired o)))
                                        (Sort (ports (current o))))),
         ((negb (isNil (webACLId (desired o))) && isNil (webACLId (current o)))
          || (isNil (webACLId (desired o)) && negb (isNil (webACLId (current o))))
          || match webACLId (current o), webACLId (desired o) with
             | Some cs, Some ds => negb (String.eqb cs ds)
             | _, _ => false
             end).
  assert (Hpop : pop = true <->
                 ports (current o) <> None /\ managedSG (current o) <> None).
  { subst pop. rewrite andb_true_iff, !negb_true_iff, !isNil_false. reflexivity. }
  split; [ | split; [ | split; [ | split]]].
  - unfold needsModification. fold pop.
    destruct pop;
      destruct (String.eqb (Hash (inboundCidrs (current o)))
                           (Hash (inboundCidrs (desired o))));
      destruct (reflectDeepEqual (Sort (ports (desired o))) (Sort (ports (current o))));
      destruct (webACLId (current o)) as [cs |];
      destruct (webACLId (desired o)) as [ds |];
      try destruct (String.eqb cs ds); reflexivity.
  - rewrite andb_true_iff, negb_true_iff, String.eqb_neq, Hpop. reflexivity.
  - rewrite andb_true_iff, negb_true_iff, Hpop. unfold reflectDeepEqual.
    rewrite bool_decide_eq_false. reflexivity.
  - destruct (webACLId (current o)) as [cs |]; destruct (webACLId (desired o)) as [ds |];
      cbn [isNil negb andb orb].
    + rewrite negb_true_iff, String.eqb_neq. split.
      * intros Hne. right. right. exists cs, ds. auto.
      * intros [[_ H] | [[H _] | (c & d & Hc & Hd & Hne)]]; congruence.
    + split; [intros _; right; left; split; congruence | reflexivity].
    + split; [intros _; left; split; congruence | reflexivity].
    + split; [discriminate | ].
      intros [[H _] | [[_ H] | (c & d & Hc & _)]]; congruence.
  - unfold needsModification. fold pop.
    destruct pop;
      destruct (String.eqb (Hash (inboundCidrs (current o)))
                           (Hash (inboundCidrs (desired o))));
      destruct (reflectDeepEqual (Sort (ports (desired o))) (Sort (ports (current o))));
      destruct (webACLId (current o)) as [cs |];
      destruct (webACLId (desired o)) as [ds |];
      try destruct (String.eqb cs ds); repeat split; reflexivity.
Qed.

End OptionClaims.

(** ** Equality of condition sets *)

Section ConditionClaims.

Import Elbv2 Rs Obs Samples.

(** What does hold of [conditionsEqual]: on lists without a repeated field
    the order of the conditions is irrelevant. *)
Lemma conditionsEqual_Permutation (cs cs' : list RuleCondition) :
  fieldsPresent cs ->
  NoDup (fieldOf <$> cs) ->
  cs ≡ₚ cs' ->
  conditionsEqual cs' cs = Done true /\ conditionsEqual cs cs' = Done true.
Proof.
  intros Hp Hnd Hperm.
  pose proof (sameConditionSet_Permutation cs cs' Hp Hnd Hperm) as Hsame.
  split; apply conditionsEqual_same; [exact Hsame | ].
  destruct Hsame as (m & H1 & H2). exists m. split; assumption.
Qed.

(** A field of the first list that the second list lacks, or binds to
    another value list, makes the answer [false]. *)
Lemma conditionsEqual_differs (cs1 cs2 : list RuleCondition)
    (m1 m2 : gmap string (list (option string))) (k : string)
    (v : list (option string)) :
  conditionToMap cs1 = Done m1 ->
  conditionToMap cs2 = Done m2 ->
  m1 !! k = Some v ->
  m2 !! k <> Some v ->
  conditionsEqual cs1 cs2 = Done false.
Proof.
  intros H1 H2 Hk Hne.
  destruct (conditionsEqual_Done cs1 cs2 m1 m2 H1 H2) as (b & Hb & Hiff).
  rewrite Hb. f_equal. destruct b; [ | reflexivity].
  exfalso. apply Hne.
  pose proof (proj1 Hiff eq_refl) as Hsub.
  rewrite map_subseteq_spec in Hsub. apply Hsub. exact Hk.
Qed.

(** C1. [conditionsEqual] does not decide equality of condition sets: it
    only checks that every field of its first argument is in the second
    with the same values. A condition that only the second list has goes
    unnoticed (and the answer depends on the order of the arguments), so a
    desired rule that adds a condition to the current one is not seen as
    needing a modification. *)
Theorem conditionsEqual_misses_added_condition :
  conditionsEqual [hostCond] [hostCond; pathCond] = Done true /\
  conditionsEqual [hostCond; pathCond] [hostCond] = Done false /\
  ~ sameConditionSet [hostCond] [hostCond; pathCond] /\
  needsModification pathAdded [] = Returns false pathAdded [].
Proof.
  split; [vm_compute; reflexivity | ].
  split; [vm_compute; reflexivity | ].
  split; [ | vm_compute; reflexivity].
  intros (m & H1 & H2).
  assert (Hback : conditionsEqual [hostCond; pathCond] [hostCond] = Done true)
    by (apply conditionsEqual_same; exists m; split; assumption).
  vm_compute in Hback. discriminate Hback.
Qed.

(** C2. The third check of [needsModification] does not fire on every pair
    of unequal condition sets. On a rule whose current and desired sides
    have deeply equal actions and the same service binding, and whose
    desired rule has a path condition the current rule lacks, the condition
    sets are not equal and no earlier check holds, yet the answer is
    [false]; a pass of [Reconcile] over that rule then calls no cloud,
    whatever the cloud. With the two sides exchanged the check does fire. *)
Theorem needsModification_misses_unequal_conditions :
  let c := cloudRule [hostCond] in
  let d := resolveRule (Some "arn:tg/web") desiredRule5 in
  rs_current (r_rs pathAdded) = Some c /\
  rs_desired (r_rs pathAdded) = Some d /\
  Actions c = Actions d /\
  ~ sameConditionSet (Conditions c) (Conditions d) /\
  svc_current (r_svc pathAdded) = svc_desired (r_svc pathAdded) /\
  needsModification pathAdded [] = Returns false pathAdded [] /\
  (forall cloud : Albelbv2.API,
      Reconcile cloud rOpts (paired 5 c 8080) [] = Returns None pathAdded []) /\
  needsModification (setDesired (Some c) (setCurrent (Some d) pathAdded)) [] =
    Returns true (setDesired (Some c) (setCurrent (Some d) pathAdded))
      [Log Debug "Conditions needs to be changed (%v != %v)"].
Proof.
  intros c d.
  split; [reflexivity | ]. split; [reflexivity | ]. split; [reflexivity | ].
  split.
  { intros (m & H1 & H2).
    assert (Hback : conditionsEqual (Conditions d) (Conditions c) = Done true)
      by (apply conditionsEqual_same; exists m; split; assumption).
    vm_compute in Hback. discriminate Hback. }
  split; [reflexivity | ].
  split; [vm_compute; reflexivity | ].
  split; [intros cloud; vm_compute; reflexivity | vm_compute; reflexivity].
Qed.

End ConditionClaims.

(** ** The end-to-end scenarios of the specification *)

Section Scenarios.

Import Elbv2 Rs Obs Samples.

(** Scenario A: nothing exists yet; one create call with one forward action
    to the resolved target group and two conditions, the answer adopted as
    current, one normal event. *)
Example scenario_create :
  Reconcile cloudOK rOpts (NewDesiredRule (desiredOptions 5)) [] =
    Returns None
      (adopt (Some (cloudRule [hostCond; pathCond]))
             (resolved rOpts (NewDesiredRule (desiredOptions 5))))
      [Log Info "Start Rule creation.";
       CloudCreateRule
         {| cri_Actions := [forward (Some "arn:tg/web")];
            cri_Conditions := [hostCond; pathCond];
            cri_ListenerArn := Some "arn:listener";
            cri_Priority := Some 5 |};
       Event EventTypeNormal "CREATE" (Fmt "%s rule created" [AStr "5"]);
       Log Info "Completed Rule creation. Rule Priority: %s | Condition: %s"].
Proof. vm_compute. reflexivity. Qed.

(** Scenario C: the desired rule drops the path condition; one modify call
    carrying the host condition only. *)
Example scenario_modify :
  cloudCalls
    (finalTrace
       (Reconcile cloudOK rOpts
          (setDesired (Some (withActions [forward None] (cloudRule [hostCond])))
             (paired 5 (cloudRule [hostCond; pathCond]) 8080)) [])) =
    [CloudModifyRule
       {| mri_Actions := [forward (Some "arn:tg/web")];
          mri_Conditions := [hostCond];
          mri_RuleArn := Some "arn:rule/5" |}].
Proof. vm_compute. reflexivity. Qed.

(** A change mask: ports and web ACL differ, CIDRs do not. *)
Example change_mask_320 :
  snd (Lb.needsModification (fun _ => EmptyString)
         {| Lb.current := Lb.mkOpts (Some [3; 1; 2]) [] None (Some "sg-1") None;
            Lb.desired := Lb.mkOpts (Some [2; 3; 1; 4]) [] (Some "acl") None None |})
  = Z.lor Lb.portsModified Lb.webACLAssociationModified.
Proof. reflexivity. Qed.

End Scenarios.

(* ===================================================================== *)
(** * Further properties of the code                                      *)
(* ===================================================================== *)

(** ** Decoding priorities *)

Section PriorityFacts.

Import Strconv Elbv2 Rs.

Lemma parseUintLoop_nonneg (s : string) :
  forall n, 0 <= n -> 0 <= fst (parseUintLoop s n).
Proof.
  induction s as [| c s IH]; intros n Hn; cbn [parseUintLoop].
  - exact Hn.
  - destruct (digitOf c) as [d |]; [ | cbn; lia]. cbv zeta.
    destruct (maxUint64 / 10 + 1 <=? n); [cbn; unfold maxUint64; lia | ].
    destruct ((n * 10 + d) mod 2 ^ 64 <? n * 10);
      [cbn; unfold maxUint64; lia | ].
    destruct (maxUint64 <? (n * 10 + d) mod 2 ^ 64);
      [cbn; unfold maxUint64; lia | ].
    cbn [orb]. apply IH. apply Z.mod_pos_bound. lia.
Qed.

Lemma ParseInt_bounds (s : string) :
  - 2 ^ 63 <= fst (ParseInt s) < 2 ^ 63.
Proof.
  unfold ParseInt. destruct s as [| c rest]; [cbn; lia | ].
  set (sign := if Ascii.eqb c "+" then (false, rest)
               else if Ascii.eqb c "-" then (true, rest)
               else (false, String c rest)).
  destruct sign as [neg body].
  assert (Hun : 0 <= fst (ParseUint body)).
  { unfold ParseUint. destruct body; [cbn; lia | ].
    apply parseUintLoop_nonneg. lia. }
  destruct (ParseUint body) as [un [[|] |]]; cbn [fst] in *; try (cbn; lia).
  all: destruct neg; cbn [negb andb];
    repeat match goal with
           | |- context [if ?b then _ else _] => destruct b eqn:?
           end;
    cbn [fst]; rewrite ?Z.leb_gt, ?Z.ltb_ge in *; lia.
Qed.

(** X1. Whatever string the rule carries, [priority] returns an [int64] and
    never fails: a parse error is dropped, so a string that does not start
    like a number (the empty one, ["default"] itself) decodes to 0. Only a
    nil pointer makes it panic. *)
Theorem priority_never_fails (s : string) :
  priority None = Panic /\
  exists v,
    priority (Some s) = Done v /\
    - 2 ^ 63 <= v < 2 ^ 63 /\
    (s = EmptyString -> v = 0) /\
    (forall c rest,
        s = String c rest ->
        digitOf c = None -> c <> "+"%char -> c <> "-"%char -> v = 0).
Proof.
  split; [reflexivity | ].
  unfold priority. destruct (String.eqb s "default") eqn:Hdef.
  - exists 0. split; [reflexivity | ]. split; [lia | ]. split; reflexivity.
  - exists (fst (ParseInt s)). split; [reflexivity | ].
    split; [apply ParseInt_bounds | ]. split.
    + intros ->. reflexivity.
    + intros c rest -> Hdig Hplus Hminus. unfold ParseInt.
      apply Ascii.eqb_neq in Hplus, Hminus. rewrite Hplus, Hminus.
      unfold ParseUint. cbn [parseUintLoop]. rewrite Hdig. reflexivity.
Qed.

(** X2. Printing an [int] with [%v] and decoding the string with [priority]
    gives the number back, for every 64-bit integer, negative ones
    included. *)
Theorem priority_of_printed_int (n : Z) :
  - 2 ^ 63 <= n < 2 ^ 63 ->
  priority (Some (Sprint n)) = Done n.
Proof.
  intros Hn. destruct (Z.ltb_spec n 0) as [Hneg | Hpos].
  - unfold priority, Sprint.
    assert (Hlt : (n <? 0) = true) by (apply Z.ltb_lt; exact Hneg). rewrite Hlt.
    change (String.eqb (String "-" (formatBits 20 (- n) EmptyString)) "default")
      with false. cbv iota.
    unfold ParseInt.
    change (Ascii.eqb "-" "+") with false. change (Ascii.eqb "-" "-") with true.
    cbv iota.
    assert (Hloop : parseUintLoop (formatBits 20 (- n) EmptyString) 0 = (- n, None)).
    { rewrite parseUintLoop_formatBits; [reflexivity | | unfold maxUint64; lia].
      change (10 ^ Z.of_nat 20) with 100000000000000000000.
      change (2 ^ 63) with 9223372036854775808 in Hn. lia. }
    destruct (formatBits_head 19 (- n) EmptyString ltac:(lia)) as (d & s & Hd & Heq).
    rewrite Heq in *. unfold ParseUint. rewrite Hloop.
    cbn [negb andb].
    assert (Hc : (2 ^ 63 <? - n) = false) by (apply Z.ltb_ge; lia).
    rewrite Hc. cbn [fst]. f_equal. lia.
  - unfold priority. rewrite Sprint_not_default by lia.
    rewrite ParseInt_Sprint by lia. reflexivity.
Qed.

Lemma priority_of_printed_int_witness :
  - 2 ^ 63 <= - 2 ^ 63 < 2 ^ 63 /\
  priority (Some (Sprint (- 2 ^ 63))) = Done (- 2 ^ 63).
Proof.
  split; [lia | ].
  exact (priority_of_printed_int (- 2 ^ 63) ltac:(lia)).
Defined.

End PriorityFacts.

(** ** The condition map and the comparison built on it *)

Section ConditionMapFacts.

Import Elbv2 Rs Obs.

Implicit Types (cs : list RuleCondition) (m : gmap string (list (option string))).

Lemma conditionToMapFrom_other cs (f : string) :
  (forall c, c ∈ cs -> Field c <> Some f) ->
  forall m0 m, conditionToMapFrom cs m0 = Done m -> m !! f = m0 !! f.
Proof.
  induction cs as [| c cs IH]; intros Hno m0 m H; cbn [conditionToMapFrom] in H.
  - injection H as <-. reflexivity.
  - destruct (Field c) as [g |] eqn:Hg; [ | discriminate].
    rewrite (IH (fun c' Hc' => Hno c' (list_elem_of_further _ _ _ Hc')) _ _ H).
    apply lookup_insert_ne. intros ->.
    apply (Hno c (list_elem_of_here _ _)). exact Hg.
Qed.

Lemma conditionToMapFrom_last cs1 :
  forall cs2 c (f : string) m0 m,
    Field c = Some f ->
    (forall c', c' ∈ cs2 -> Field c' <> Some f) ->
    conditionToMapFrom (cs1 ++ c :: cs2) m0 = Done m ->
    m !! f = Some (Values c).
Proof.
  induction cs1 as [| c1 cs1 IH]; intros cs2 c f m0 m Hf Hno H.
  - cbn [app conditionToMapFrom] in H. rewrite Hf in H.
    rewrite (conditionToMapFrom_other cs2 f Hno _ _ H). apply lookup_insert_eq.
  - cbn [app conditionToMapFrom] in H.
    destruct (Field c1) as [g |]; [ | discriminate].
    exact (IH cs2 c f _ m Hf Hno H).
Qed.

(** X3. [conditionToMap] panics exactly when some condition has a nil
    [Field]. Otherwise a field is bound to the value list of the last
    condition that names it (an earlier condition on the same field is
    dropped), and a field no condition names is not bound. *)
Theorem conditionToMap_last_condition_wins cs :
  (conditionToMap cs = Panic <-> ~ fieldsPresent cs) /\
  (forall m,
      conditionToMap cs = Done m ->
      (forall cs1 c cs2 f,
          cs = cs1 ++ c :: cs2 ->
          Field c = Some f ->
          (forall c', c' ∈ cs2 -> Field c' <> Some f) ->
          m !! f = Some (Values c)) /\
      (forall f, (forall c, c ∈ cs -> Field c <> Some f) -> m !! f = None)).
Proof.
  split.
  - split.
    + intros Hp Hwf. rewrite (conditionToMap_present cs Hwf) in Hp. discriminate Hp.
    + intros Hn. destruct (conditionToMap cs) as [m |] eqn:Hm; [ | reflexivity].
      exfalso. apply Hn. exact (conditionToMapFrom_Done cs ∅ m Hm).
  - intros m Hm. split.
    + intros cs1 c cs2 f -> Hf Hno.
      exact (conditionToMapFrom_last cs1 cs2 c f ∅ m Hf Hno Hm).
    + intros f Hno.
      rewrite (conditionToMapFrom_other cs f Hno ∅ m Hm). apply lookup_empty.
Qed.

(** X4. On condition lists whose fields are all set, [conditionsEqual]
    answers whether the first map is included in the second: [true] exactly
    when every field bound by the first list is bound to the same value list
    by the second, [false] exactly when some field of the first list is
    missing from the second or bound to other values there. Fields that only
    the second list has play no part. *)
Theorem conditionsEqual_is_inclusion cs1 cs2 m1 m2 :
  conditionToMap cs1 = Done m1 ->
  conditionToMap cs2 = Done m2 ->
  (conditionsEqual cs1 cs2 = Done true <->
     forall f v, m1 !! f = Some v -> m2 !! f = Some v) /\
  (conditionsEqual cs1 cs2 = Done false <->
     exists f v, m1 !! f = Some v /\ m2 !! f <> Some v).
Proof.
  intros H1 H2.
  destruct (conditionsEqual_Done cs1 cs2 m1 m2 H1 H2) as (b & Hb & Hiff).
  rewrite map_subseteq_spec in Hiff. rewrite Hb.
  assert (Htrue : Done b = Done true <-> forall f v, m1 !! f = Some v -> m2 !! f = Some v).
  { rewrite <- Hiff. split; [intros [= ->]; reflexivity | intros ->; reflexivity]. }
  split; [exact Htrue | ]. split.
  - intros [= ->].
    assert (Hnot : ~ map_Forall (fun f v => m2 !! f = Some v) m1).
    { intros Hall. pose proof (proj2 Hiff Hall). discriminate. }
    apply map_not_Forall in Hnot; [ | intros; apply _].
    destruct Hnot as (f & v & Hf & Hne). exists f, v. split; assumption.
  - intros (f & v & Hf & Hne). destruct b; [ | reflexivity].
    exfalso. apply Hne. apply (proj1 Hiff eq_refl). exact Hf.
Qed.

(** X5. Asking [conditionsEqual] both ways round decides equality of
    condition sets: the two answers are both [true] exactly when the two
    lists bind the same fields to the same value lists. *)
Theorem conditionsEqual_both_ways cs1 cs2 :
  conditionsEqual cs1 cs2 = Done true /\ conditionsEqual cs2 cs1 = Done true <->
  sameConditionSet cs1 cs2.
Proof.
  split.
  - intros [H12 H21]. unfold conditionsEqual in H12, H21.
    destruct (conditionToMap cs1) as [m1 |] eqn:H1; [ | discriminate].
    destruct (conditionToMap cs2) as [m2 |] eqn:H2; [ | discriminate].
    injection H12 as H12. injection H21 as H21.
    apply conditionsEqual_fold in H12, H21.
    exists m1. split; [exact H1 | ]. rewrite H2. f_equal.
    apply (anti_symm (⊆)); assumption.
  - intros Hsame. split; apply conditionsEqual_same; [exact Hsame | ].
    destruct Hsame as (m & H1 & H2). exists m. split; assumption.
Qed.

(** X6. [conditionsEqual] is a preorder on condition lists whose fields are
    set: every list compares [true] with itself, [true] answers chain, and
    the empty list compares [true] with every list. *)
Theorem conditionsEqual_preorder cs1 cs2 cs3 :
  (fieldsPresent cs1 -> conditionsEqual cs1 cs1 = Done true) /\
  (conditionsEqual cs1 cs2 = Done true ->
   conditionsEqual cs2 cs3 = Done true ->
   conditionsEqual cs1 cs3 = Done true) /\
  (fieldsPresent cs1 -> conditionsEqual [] cs1 = Done true).
Proof.
  split; [ | split].
  - intros Hwf. apply conditionsEqual_same.
    exists (list_to_map (reverse (entry <$> cs1))).
    split; apply conditionToMap_present; exact Hwf.
  - unfold conditionsEqual.
    destruct (conditionToMap cs1) as [m1 |]; [ | discriminate].
    destruct (conditionToMap cs2) as [m2 |]; [ | discriminate].
    destruct (conditionToMap cs3) as [m3 |]; [ | discriminate].
    intros [= H12] [= H23]. f_equal.
    apply conditionsEqual_fold in H12, H23. apply conditionsEqual_fold.
    etransitivity; eassumption.
  - intros Hwf. unfold conditionsEqual.
    rewrite (conditionToMap_present cs1 Hwf). reflexivity.
Qed.

(** X7. The order in which the conditions are listed does not matter on
    either side, as long as no list names a field twice. *)
Theorem conditionsEqual_order_irrelevant cs1 cs1' cs2 cs2' :
  fieldsPresent cs1 -> NoDup (fieldOf <$> cs1) -> cs1 ≡ₚ cs1' ->
  fieldsPresent cs2 -> NoDup (fieldOf <$> cs2) -> cs2 ≡ₚ cs2' ->
  conditionsEqual cs1' cs2' = conditionsEqual cs1 cs2.
Proof.
  intros Hp1 Hn1 Hperm1 Hp2 Hn2 Hperm2. unfold conditionsEqual.
  rewrite (conditionToMap_Permutation cs1 cs1' Hp1 Hn1 Hperm1).
  rewrite (conditionToMap_Permutation cs2 cs2' Hp2 Hn2 Hperm2).
  reflexivity.
Qed.

End ConditionMapFacts.

(** ** The constructors *)

Section ConstructorFacts.

Import Elbv2 Rs Obs.

(** X8. What [NewDesiredRule] builds: a rule with no current state, not
    deleted, whose desired rule has no ARN yet and one forward action without
    target group. The default rule (priority 0) gets no condition at all.
    Any other rule gets a host-header condition exactly when a hostname is
    given and [IgnoreHostHeader] is set and false (a nil [IgnoreHostHeader]
    drops the hostname), and a path-pattern condition exactly when a path is
    given. The conditions have their fields set and name no field twice. *)
Theorem NewDesiredRule_shape (o : NewDesiredRuleOptions) :
  exists d,
    r_rs (NewDesiredRule o) = {| rs_current := None; rs_desired := Some d |} /\
    deleted (NewDesiredRule o) = false /\
    RuleArn d = None /\
    Actions d = [ {| Elbv2.TargetGroupArn := None; Type_ := Some "forward" |} ] /\
    (forall c,
        c ∈ Conditions d <->
        o_Priority o <> 0 /\
        ((c = {| Field := Some "host-header"; Values := [Some (o_Hostname o)] |} /\
          o_Hostname o <> EmptyString /\ o_IgnoreHostHeader o = Some false) \/
         (c = {| Field := Some "path-pattern"; Values := [Some (o_Path o)] |} /\
          o_Path o <> EmptyString))) /\
    fieldsPresent (Conditions d) /\
    NoDup (fieldOf <$> Conditions d).
Proof.
  eexists. split; [reflexivity | ]. split; [reflexivity | ].
  split; [reflexivity | ]. split; [reflexivity | ].
  cbn [Conditions].
  set (host := negb (String.eqb (o_Hostname o) EmptyString)
               && match o_IgnoreHostHeader o with Some b => negb b | None => false end).
  set (path := negb (String.eqb (o_Path o) EmptyString)).
  assert (Hhost : host = true <->
                  o_Hostname o <> EmptyString /\ o_IgnoreHostHeader o = Some false).
  { subst host. rewrite andb_true_iff, negb_true_iff, String.eqb_neq.
    destruct (o_IgnoreHostHeader o) as [[|] |]; cbn; split; intros [H1 H2];
      try discriminate; split; congruence. }
  assert (Hpath : path = true <-> o_Path o <> EmptyString).
  { subst path. rewrite negb_true_iff, String.eqb_neq. reflexivity. }
  destruct (o_Priority o =? 0) eqn:Hz.
  - apply Z.eqb_eq in Hz. split; [ | split; [constructor | constructor]].
    intros c. split; [intros Hin; inversion Hin | intros [Hne _]; contradiction].
  - apply Z.eqb_neq in Hz. split; [ | split].
    + intros c. rewrite elem_of_app. split.
      * intros [Hin | Hin]; (split; [exact Hz | ]).
        -- destruct host; [ | inversion Hin].
           apply list_elem_of_singleton in Hin. left. split; [exact Hin | ].
           apply Hhost. reflexivity.
        -- destruct path; [ | inversion Hin].
           apply list_elem_of_singleton in Hin. right. split; [exact Hin | ].
           apply Hpath. reflexivity.
      * intros [_ [(-> & Hh) | (-> & Hp)]].
        -- left. rewrite (proj2 Hhost Hh). apply list_elem_of_here.
        -- right. rewrite (proj2 Hpath Hp). apply list_elem_of_here.
    + unfold fieldsPresent. apply Forall_app. split.
      * destruct host; repeat constructor. cbn. eauto.
      * destruct path; repeat constructor. cbn. eauto.
    + destruct host, path; cbn; compute_done.
Qed.

End ConstructorFacts.

(** ** What one pass of [Reconcile] can do *)

Ltac destruct_scrutinee :=
  match goal with
  | |- context [match ?x with _ => _ end] =>
      lazymatch x with
      | context [match _ with _ => _ end] => fail
      | _ => destruct x eqn:?; mstep
      end
  end.

Section ReconcileFacts.

Import Elbv2 Rs Obs.

Variable ELBV2svc : Albelbv2.API.
Variable rOpts : ReconcileOptions.

(** The switch leaves the desired rule and the desired service binding
    alone. *)
Lemma reconcileSwitch_keeps_desired (r1 : Rule) (tr : list effect) :
  rs_desired (r_rs (finalRule (reconcileSwitch ELBV2svc rOpts r1 tr))) =
    rs_desired (r_rs r1) /\
  svc_desired (r_svc (finalRule (reconcileSwitch ELBV2svc rOpts r1 tr))) =
    svc_desired (r_svc r1).
Proof.
  unfold reconcileSwitch, create, modify, delete, needsModification.
  mstep. repeat destruct_scrutinee.
  all: cbn; split; congruence.
Qed.

(** The cloud calls of the switch: none, or one, of the kind the state of
    the rule asks for. *)
Lemma reconcileSwitch_calls (r1 : Rule) (tr : list effect) :
  exists calls,
    cloudCalls (finalTrace (reconcileSwitch ELBV2svc rOpts r1 tr)) =
      cloudCalls tr ++ calls /\
    (calls = [] \/
     (exists c,
         calls = [CloudDeleteRule (deleteInput c)] /\
         rs_desired (r_rs r1) = None /\
         rs_current (r_rs r1) = Some c /\
         IsDefault c = Some false) \/
     (exists d p,
         calls = [CloudCreateRule (createInput rOpts d p)] /\
         rs_current (r_rs r1) = None /\
         rs_desired (r_rs r1) = Some d /\
         IsDefault d = Some false /\
         priority (Priority d) = Done p) \/
     (exists c d,
         calls = [CloudModifyRule (modifyInput c d)] /\
         rs_current (r_rs r1) = Some c /\
         rs_desired (r_rs r1) = Some d /\
         IsDefault d = Some false)).
Proof.
  unfold reconcileSwitch, create, modify, delete, needsModification, cloudCalls.
  mstep. repeat destruct_scrutinee.
  all: cbn [finalTrace]; rewrite ?List.filter_app; cbn [List.filter isCloudCall];
    rewrite ?app_nil_r.
  all: simplify_eq.
  all: first
         [ exists []; split; [symmetry; apply app_nil_r | left; reflexivity]
         | eexists; split; [reflexivity | ];
           first [ right; left; eexists;
                   (split; [ | repeat split; first [eassumption | reflexivity] ]);
                   unfold deleteInput; congruence
                 | right; right; left; do 2 eexists;
                   (split; [ | repeat split; first [eassumption | reflexivity] ]);
                   unfold createInput; congruence
                 | right; right; right; do 2 eexists;
                   (split; [ | repeat split; first [eassumption | reflexivity] ]);
                   unfold modifyInput; congruence ] ].
Qed.

(** X9. Whatever happens in a pass, returning or panicking, [Reconcile] never
    changes what is desired: the desired service binding stays, a missing
    desired rule stays missing, and a desired rule keeps its conditions,
    priority, default flag, ARN and the types of its actions; only the
    target group ARN of every action is overwritten with the one looked up
    for the desired service. *)
Theorem Reconcile_keeps_desired (r : Rule) (tr : list effect) :
  svc_desired (r_svc (finalRule (Reconcile ELBV2svc rOpts r tr))) =
    svc_desired (r_svc r) /\
  match rs_desired (r_rs r) with
  | None => rs_desired (r_rs (finalRule (Reconcile ELBV2svc rOpts r tr))) = None
  | Some d =>
      exists d',
        rs_desired (r_rs (finalRule (Reconcile ELBV2svc rOpts r tr))) = Some d' /\
        Conditions d' = Conditions d /\
        IsDefault d' = IsDefault d /\
        Priority d' = Priority d /\
        RuleArn d' = RuleArn d /\
        Type_ <$> Actions d' = Type_ <$> Actions d /\
        Forall (fun a => Elbv2.TargetGroupArn a =
                           lookupArn (TargetGroups rOpts) (svc_desired (r_svc r)))
               (Actions d')
  end.
Proof.
  rewrite Reconcile_eval.
  destruct (reconcileSwitch_keeps_desired (resolved rOpts r)
              (tr ++ resolutionLog rOpts r)) as [Hd Hs].
  rewrite Hd, Hs. unfold resolved.
  destruct (rs_desired (r_rs r)) as [d |] eqn:Hdes.
  - split; [reflexivity | ].
    eexists. split; [reflexivity | ]. cbn [resolveRule withActions Conditions IsDefault
                                            Priority RuleArn Actions].
    repeat split.
    + induction (Actions d) as [| a l IH]; [reflexivity | ].
      cbn. f_equal. exact IH.
    + induction (Actions d) as [| a l IH]; constructor; [reflexivity | exact IH].
  - split; [reflexivity | exact Hdes].
Qed.

(** X10. One pass of [Reconcile] calls the cloud at most once, and only as
    the state of the rule asks: it deletes only a current rule that is not
    the default one when nothing is desired, creates only when there is no
    current rule, modifies only when both sides are there; create and
    modify are only ever issued for a desired rule that is not the default
    one. *)
Theorem Reconcile_calls_at_most_once (r : Rule) (tr : list effect) :
  exists calls,
    cloudCalls (finalTrace (Reconcile ELBV2svc rOpts r tr)) = cloudCalls tr ++ calls /\
    (calls = [] \/
     (exists c,
         calls = [CloudDeleteRule (deleteInput c)] /\
         rs_desired (r_rs r) = None /\
         rs_current (r_rs r) = Some c /\
         IsDefault c = Some false) \/
     (exists d p,
         calls = [CloudCreateRule (createInput rOpts d p)] /\
         rs_current (r_rs r) = None /\
         rs_desired (r_rs (resolved rOpts r)) = Some d /\
         IsDefault d = Some false /\
         priority (Priority d) = Done p) \/
     (exists c d,
         calls = [CloudModifyRule (modifyInput c d)] /\
         rs_current (r_rs r) = Some c /\
         rs_desired (r_rs (resolved rOpts r)) = Some d /\
         IsDefault d = Some false)).
Proof.
  rewrite Reconcile_eval.
  destruct (reconcileSwitch_calls (resolved rOpts r) (tr ++ resolutionLog rOpts r))
    as (calls & Hcalls & Hkind).
  exists calls. split.
  - rewrite Hcalls, cloudCalls_app, cloudCalls_resolutionLog, app_nil_r. reflexivity.
  - assert (Hcur : rs_current (r_rs (resolved rOpts r)) = rs_current (r_rs r))
      by (unfold resolved; destruct (rs_desired (r_rs r)); reflexivity).
    assert (Hnone : rs_desired (r_rs (resolved rOpts r)) = None ->
                    rs_desired (r_rs r) = None)
      by (unfold resolved; destruct (rs_desired (r_rs r)); [discriminate | reflexivity]).
    rewrite Hcur in Hkind.
    destruct Hkind as [H | [(c & H1 & H2 & H3 & H4) | [H | H]]].
    + left. exact H.
    + right. left. exists c. auto.
    + right. right. left. exact H.
    + right. right. right. exact H.
Qed.

(** The create case of the switch, when the cloud answers with a rule. *)
Lemma reconcileSwitch_create (r1 : Rule) (t : list effect) (d1 : Elbv2.Rule) (p : Z)
    (o : CreateRuleOutput) (x : Elbv2.Rule) (rest : list (option Elbv2.Rule))
    (px : string) :
  rs_current (r_rs r1) = None ->
  rs_desired (r_rs r1) = Some d1 ->
  IsDefault d1 = Some false ->
  priority (Priority d1) = Done p ->
  Albelbv2.CreateRule ELBV2svc (createInput rOpts d1 p) = inl o ->
  cro_Rules o = Some x :: rest ->
  Priority x = Some px ->
  reconcileSwitch ELBV2svc rOpts r1 t =
    Returns None (adopt (Some x) r1)
      (t ++ [Log Info "Start Rule creation.";
             CloudCreateRule (createInput rOpts d1 p);
             Event EventTypeNormal "CREATE" (Fmt "%s rule created" [AStr px]);
             Log Info "Completed Rule creation. Rule Priority: %s | Condition: %s"]).
Proof.
  intros Hc Hd Hdef Hp Hcall Hrules Hpx.
  unfold reconcileSwitch. mstep. rewrite Hd, Hdef, Hc. mstep.
  rewrite (create_cases ELBV2svc rOpts r1 _ d1 p Hd Hp), Hcall, Hrules.
  cbn [adopt setSvcCurrent setCurrent r_rs rs_current]. rewrite Hpx.
  rewrite <- !app_assoc. reflexivity.
Qed.

Lemma resolved_desired (r : Rule) (d : Elbv2.Rule) :
  rs_desired (r_rs r) = Some d ->
  resolved rOpts r =
    setDesired (Some (resolveRule (lookupArn (TargetGroups rOpts) (svc_desired (r_svc r))) d)) r.
Proof. intros H. unfold resolved. rewrite H. reflexivity. Qed.

(** X11. A desired rule that is not the default one and has no current rule
    is created: one create call, carrying the desired conditions, the actions
    with the target group ARN looked up (nil when the lookup fails), the
    listener ARN and the decoded priority. When the cloud answers with a
    rule, that rule becomes current, the desired service binding becomes the
    current one, and the [CREATE] event prints the priority of the rule the
    cloud returned. *)
Theorem Reconcile_creates_missing_rule (r : Rule) (tr : list effect)
    (d : Elbv2.Rule) (p : Z) (o : CreateRuleOutput) (x : Elbv2.Rule)
    (rest : list (option Elbv2.Rule)) (px : string) :
  let arn := lookupArn (TargetGroups rOpts) (svc_desired (r_svc r)) in
  let input :=
    {| cri_Actions := map (withTargetGroupArn arn) (Actions d);
       cri_Conditions := Conditions d;
       cri_ListenerArn := ListenerArn rOpts;
       cri_Priority := Some p |} in
  rs_current (r_rs r) = None ->
  rs_desired (r_rs r) = Some d ->
  IsDefault d = Some false ->
  priority (Priority d) = Done p ->
  Albelbv2.CreateRule ELBV2svc input = inl o ->
  cro_Rules o = Some x :: rest ->
  Priority x = Some px ->
  exists r',
    Reconcile ELBV2svc rOpts r tr =
      Returns None r'
        (tr ++ resolutionLog rOpts r ++
         [Log Info "Start Rule creation.";
          CloudCreateRule input;
          Event EventTypeNormal "CREATE" (Fmt "%s rule created" [AStr px]);
          Log Info "Completed Rule creation. Rule Priority: %s | Condition: %s"]) /\
    rs_current (r_rs r') = Some x /\
    svc_current (r_svc r') = svc_desired (r_svc r) /\
    svc_desired (r_svc r') = svc_desired (r_svc r) /\
    deleted r' = deleted r.
Proof.
  intros arn input Hc Hd Hdef Hp Hcall Hrules Hpx.
  rewrite Reconcile_eval, (resolved_desired r d Hd). fold arn.
  rewrite (reconcileSwitch_create (setDesired (Some (resolveRule arn d)) r) _
             (resolveRule arn d) p o x rest px
             Hc eq_refl Hdef Hp Hcall Hrules Hpx).
  eexists. split; [rewrite <- app_assoc; reflexivity | ].
  repeat split.
Qed.

(** X12. Convergence after a create: when the cloud answers a create call
    with a rule that carries the actions it was asked for and the same
    condition set, the rule is in step, and the next pass calls no cloud,
    returns no error and leaves the rule exactly as it is, whatever cloud it
    runs against. *)
Theorem Reconcile_settles_after_create (r : Rule) (tr : list effect)
    (d : Elbv2.Rule) (p : Z) (o : CreateRuleOutput) (x : Elbv2.Rule)
    (rest : list (option Elbv2.Rule)) (px : string) :
  let arn := lookupArn (TargetGroups rOpts) (svc_desired (r_svc r)) in
  let input := createInput rOpts (resolveRule arn d) p in
  rs_current (r_rs r) = None ->
  rs_desired (r_rs r) = Some d ->
  IsDefault d = Some false ->
  priority (Priority d) = Done p ->
  Albelbv2.CreateRule ELBV2svc input = inl o ->
  cro_Rules o = Some x :: rest ->
  Priority x = Some px ->
  Actions x = cri_Actions input ->
  sameConditionSet (Conditions x) (cri_Conditions input) ->
  forall (cloud' : Albelbv2.API) (tr2 : list effect),
    exists tr2',
      Reconcile cloud' rOpts (finalRule (Reconcile ELBV2svc rOpts r tr)) tr2 =
        Returns None (finalRule (Reconcile ELBV2svc rOpts r tr)) tr2' /\
      cloudCalls tr2' = cloudCalls tr2.
Proof.
  intros arn input Hc Hd Hdef Hp Hcall Hrules Hpx Hact Hcond cloud' tr2.
  rewrite (Reconcile_eval ELBV2svc), (resolved_desired r d Hd). fold arn.
  rewrite (reconcileSwitch_create (setDesired (Some (resolveRule arn d)) r) _
             (resolveRule arn d) p o x rest px
             Hc eq_refl Hdef Hp Hcall Hrules Hpx).
  cbn [finalRule].
  set (r1 := adopt (Some x) (setDesired (Some (resolveRule arn d)) r)).
  assert (Hres : resolved rOpts r1 = r1).
  { unfold resolved, r1. cbn. unfold resolveRule. cbn. rewrite map_map. cbn.
    reflexivity. }
  rewrite Reconcile_eval, Hres.
  unfold reconcileSwitch. mstep.
  change (rs_desired (r_rs r1)) with (Some (resolveRule arn d)). mstep.
  change (IsDefault (resolveRule arn d)) with (IsDefault d). rewrite Hdef. mstep.
  change (rs_current (r_rs r1)) with (Some x). mstep.
  rewrite (needsModification_eval r1 _ x (resolveRule arn d) eq_refl eq_refl).
  rewrite (bool_decide_eq_true_2 _ Hact).
  change (Conditions (resolveRule arn d)) with (cri_Conditions input).
  rewrite (conditionsEqual_same _ _ Hcond).
  change (svc_current (r_svc r1)) with (svc_desired (r_svc r)).
  change (svc_desired (r_svc r1)) with (svc_desired (r_svc r)).
  rewrite String.eqb_refl, Z.eqb_refl. cbn [orb].
  eexists. split; [reflexivity | ].
  rewrite cloudCalls_app. rewrite (cloudCalls_resolutionLog rOpts r1). apply app_nil_r.
Qed.

(** X13. A rule with both sides whose desired rule is not the default one
    and for which [needsModification] says so is modified: one modify call
    by the ARN of the current rule, with the desired conditions and the
    desired actions carrying the looked-up target group ARN. The desired
    service binding becomes the current one. When the answer holds a rule it
    becomes current and the [MODIFY] event prints its priority; when the
    answer holds none, the current rule stays and the event prints the
    priority of that one; when the first rule of the answer is nil, current
    is set to nil and printing its priority panics. *)
Theorem Reconcile_modifies_differing_rule (r : Rule) (tr tr1 : list effect)
    (c d : Elbv2.Rule) (o : ModifyRuleOutput) :
  let d' := resolveRule (lookupArn (TargetGroups rOpts) (svc_desired (r_svc r))) d in
  let r1 := resolved rOpts r in
  rs_current (r_rs r) = Some c ->
  rs_desired (r_rs r) = Some d ->
  IsDefault d = Some false ->
  needsModification r1 (tr ++ resolutionLog rOpts r) = Returns true r1 tr1 ->
  Albelbv2.ModifyRule ELBV2svc (modifyInput c d') = inl o ->
  match mro_Rules o with
  | Some x :: _ =>
      forall px,
        Priority x = Some px ->
        Reconcile ELBV2svc rOpts r tr =
          Returns None (adopt (Some x) r1)
            (tr1 ++ [CloudModifyRule (modifyInput c d');
                     Event EventTypeNormal "MODIFY" (Fmt "%s rule modified" [AStr px])])
  | None :: _ =>
      Reconcile ELBV2svc rOpts r tr =
        Panics (adopt None r1) (tr1 ++ [CloudModifyRule (modifyInput c d')])
  | [] =>
      forall pc,
        Priority c = Some pc ->
        Reconcile ELBV2svc rOpts r tr =
          Returns None (setSvcCurrent (svc_desired (r_svc r)) r1)
            (tr1 ++ [CloudModifyRule (modifyInput c d');
                     Event EventTypeNormal "MODIFY" (Fmt "%s rule modified" [AStr pc])])
  end.
Proof.
  intros d' r1 Hc Hd Hdef Hnm Hcall.
  assert (Hr1 : r1 = setDesired (Some d') r) by (apply resolved_desired; exact Hd).
  assert (Hc1 : rs_current (r_rs r1) = Some c) by (rewrite Hr1; exact Hc).
  assert (Hd1 : rs_desired (r_rs r1) = Some d') by (rewrite Hr1; reflexivity).
  assert (Hs1 : svc_desired (r_svc r1) = svc_desired (r_svc r))
    by (rewrite Hr1; reflexivity).
  assert (Hrun : Reconcile ELBV2svc rOpts r tr =
                 match modify ELBV2svc rOpts r1 tr1 with
                 | Returns (Some e) r' t' => Returns (Some e) r' t'
                 | Returns None r' t' =>
                     match rs_current (r_rs r') with
                     | Some c' =>
                         match Priority c' with
                         | Some p =>
                             Returns None r'
                               (t' ++ [Event EventTypeNormal "MODIFY"
                                         (Fmt "%s rule modified" [AStr p])])
                         | None => Panics r' t'
                         end
                     | None => Panics r' t'
                     end
                 | Panics r' t' => Panics r' t'
                 end).
  { rewrite Reconcile_eval. fold r1. unfold reconcileSwitch. mstep.
    rewrite Hd1. mstep. change (IsDefault d') with (IsDefault d). rewrite Hdef. mstep.
    rewrite Hc1. mstep. rewrite Hnm.
    destruct (modify ELBV2svc rOpts r1 tr1) as [[e |] r' t' | r' t']; try reflexivity.
    destruct (rs_current (r_rs r')) as [c' |]; [ | reflexivity].
    destruct (Priority c'); reflexivity. }
  rewrite Hrun, (modify_cases ELBV2svc rOpts r1 tr1 c d' Hd1 Hc1), Hcall.
  destruct (mro_Rules o) as [| [x |] rest].
  - intros pc Hpc. rewrite Hs1.
    cbn [setSvcCurrent r_rs]. rewrite Hc1, Hpc, <- app_assoc. reflexivity.
  - intros px Hpx. cbn [adopt setSvcCurrent setCurrent r_rs rs_current].
    rewrite Hpx, <- app_assoc. reflexivity.
  - reflexivity.
Qed.

Lemma conditionsEqual_total (cs1 cs2 : list RuleCondition) :
  fieldsPresent cs1 -> fieldsPresent cs2 ->
  exists b, conditionsEqual cs1 cs2 = Done b.
Proof.
  intros H1 H2. unfold conditionsEqual.
  rewrite (conditionToMap_present cs1 H1), (conditionToMap_present cs2 H2). eauto.
Qed.

Lemma needsModification_returns (r : Rule) (t : list effect) (c d : Elbv2.Rule) :
  rs_current (r_rs r) = Some c ->
  rs_desired (r_rs r) = Some d ->
  fieldsPresent (Conditions c) ->
  fieldsPresent (Conditions d) ->
  exists b t', needsModification r t = Returns b r t'.
Proof.
  intros Hc Hd Hfc Hfd. rewrite (needsModification_eval r t c d Hc Hd).
  destruct (conditionsEqual_total _ _ Hfc Hfd) as [b Hb]. rewrite Hb.
  destruct (bool_decide (Actions c = Actions d)); [ | eauto].
  destruct b; [ | eauto].
  destruct (String.eqb _ _); [ | eauto].
  destruct (_ || _); eauto.
Qed.

Lemma wfRule_same_rs (r r' : Rule) :
  r_rs r' = r_rs r -> wfRule r -> wfRule r'.
Proof. unfold wfRule. intros ->. tauto. Qed.

Lemma wfRule_adopt (r : Rule) (x : Elbv2.Rule) :
  wfRule r -> wfSnapshot x -> wfRule (adopt (Some x) r).
Proof.
  intros [Hd _] (Hx1 & Hx2 & Hx3 & Hx4). split.
  - exact Hd.
  - cbn. intros c [= <-]. auto.
Qed.

Lemma wfRule_resolved (r : Rule) : wfRule r -> wfRule (resolved rOpts r).
Proof.
  intros Hwf. pose proof Hwf as [Hd Hc]. unfold resolved.
  destruct (rs_desired (r_rs r)) as [d |] eqn:Hdes; [ | exact Hwf].
  split.
  - cbn. intros d0 [= <-]. exact (Hd d eq_refl).
  - cbn. intros c Hcur. destruct (Hc c Hcur) as (H1 & H2 & H3 & H4).
    repeat split; try assumption.
    intros d0 [= <-] Hdef. exact (H4 d eq_refl Hdef).
Qed.

(** The switch on a well-formed rule against a well-formed cloud. *)
Lemma reconcileSwitch_safe (r1 : Rule) (t : list effect) :
  wfCloud ELBV2svc -> wfRule r1 ->
  exists e r' t', reconcileSwitch ELBV2svc rOpts r1 t = Returns e r' t' /\ wfRule r'.
Proof.
  intros [Hcreate Hmodify] Hwf. pose proof Hwf as [Hwd Hwc].
  unfold reconcileSwitch. mstep.
  destruct (rs_desired (r_rs r1)) as [d |] eqn:Hd.
  - destruct (Hwd d eq_refl) as ([isDefault Hdef] & [s Hs] & Hfd).
    rewrite Hdef. mstep. destruct isDefault.
    + do 3 eexists. split; [reflexivity | ]. split.
      * cbn. rewrite Hd. exact Hwd.
      * cbn. intros c [= <-]. repeat split; eauto.
        rewrite Hd. intros d0 [= <-] Hfalse. congruence.
    + destruct (rs_current (r_rs r1)) as [c |] eqn:Hc.
      * destruct (Hwc c eq_refl) as ([cd Hcd] & [pc Hpc] & Hfc & Harn).
        destruct (Harn d eq_refl Hdef) as [arn Harn'].
        destruct (needsModification_returns r1 t c d Hc Hd Hfc Hfd) as (b & t' & Hnm).
        rewrite Hnm. destruct b; [ | eauto 10].
        rewrite (modify_cases ELBV2svc rOpts r1 t' c d Hd Hc).
        destruct (Albelbv2.ModifyRule ELBV2svc (modifyInput c d)) as [o | err] eqn:Hcall.
        -- destruct (mro_Rules o) as [| first rest] eqn:Hrules.
           ++ cbn [setSvcCurrent r_rs]. rewrite Hc. mstep. rewrite Hpc. mstep.
              do 3 eexists. split; [reflexivity | ].
              apply (wfRule_same_rs r1); [reflexivity | exact Hwf].
           ++ destruct (Hmodify _ o first rest Hcall Hrules) as (x & -> & Hx).
              pose proof Hx as (_ & [px Hpx] & _).
              cbn [adopt setSvcCurrent setCurrent r_rs rs_current]. mstep.
              rewrite Hpx. mstep.
              do 3 eexists. split; [reflexivity | ].
              apply (wfRule_adopt r1 x Hwf Hx).
        -- rewrite Harn'. eauto 10.
      * assert (Hp : exists p, priority (Priority d) = Done p)
          by (rewrite Hs; unfold priority; destruct (String.eqb s "default"); eauto).
        destruct Hp as [p Hp].
        rewrite (create_cases ELBV2svc rOpts r1 _ d p Hd Hp).
        destruct (Albelbv2.CreateRule ELBV2svc (createInput rOpts d p)) as [o | err] eqn:Hcall.
        -- destruct (Hcreate _ o Hcall) as (x & rest & Hrules & Hx).
           pose proof Hx as (_ & [px Hpx] & _).
           rewrite Hrules.
           cbn [adopt setSvcCurrent setCurrent r_rs rs_current]. mstep.
           rewrite Hpx. mstep.
           do 3 eexists. split; [reflexivity | ].
           apply (wfRule_adopt r1 x Hwf Hx).
        -- eauto 10.
  - destruct (rs_current (r_rs r1)) as [c |] eqn:Hc; [ | eauto 10].
    destruct (Hwc c eq_refl) as ([cd Hcd] & [pc Hpc] & Hfc & _).
    rewrite Hcd. mstep. destruct cd; [eauto 10 | ].
    rewrite (delete_cases ELBV2svc rOpts r1 _ c Hc Hcd).
    destruct (Albelbv2.DeleteRule ELBV2svc (deleteInput c)) as [err |].
    + rewrite Hpc. eauto 10.
    + cbn [setDeleted r_rs]. rewrite Hc. mstep. rewrite Hpc. mstep.
      do 3 eexists. split; [reflexivity | ].
      apply (wfRule_same_rs r1); [reflexivity | exact Hwf].
Qed.

(** X14. Well-formedness is an invariant of reconciliation: on a rule whose
    dereferenced pointers are set, against a cloud whose successful answers
    are well formed, [Reconcile] returns (it does not panic) and hands back a
    rule that is well formed again, so that pass after pass can run on it. *)
Theorem Reconcile_keeps_rule_well_formed (r : Rule) (tr : list effect) :
  wfCloud ELBV2svc ->
  wfRule r ->
  exists e r' tr',
    Reconcile ELBV2svc rOpts r tr = Returns e r' tr' /\ wfRule r'.
Proof.
  intros Hcloud Hwf. rewrite Reconcile_eval.
  apply reconcileSwitch_safe; [exact Hcloud | ].
  apply wfRule_resolved. exact Hwf.
Qed.

(** X15. [delete] never touches the snapshots or the service bindings of
    the rule, and it sets [deleted] only after the cloud accepted a delete
    call for a current rule that is not the default one; [deleted] is never
    reset. Without a current rule it returns at once, with a log line and
    without a call. *)
Theorem delete_marks_accepted_deletions_only (r : Rule) (tr : list effect) :
  r_rs (finalRule (delete ELBV2svc rOpts r tr)) = r_rs r /\
  r_svc (finalRule (delete ELBV2svc rOpts r tr)) = r_svc r /\
  (deleted (finalRule (delete ELBV2svc rOpts r tr)) = true <->
     deleted r = true \/
     exists c,
       rs_current (r_rs r) = Some c /\
       IsDefault c = Some false /\
       Albelbv2.DeleteRule ELBV2svc (deleteInput c) = None) /\
  (rs_current (r_rs r) = None ->
   delete ELBV2svc rOpts r tr =
     Returns None r
       (tr ++ [Log Info "Rule entered delete with no Current to delete. Rule: %s"])).
Proof.
  unfold delete. mstep.
  destruct (rs_current (r_rs r)) as [c |] eqn:Hc.
  - destruct (IsDefault c) as [[|] |] eqn:Hdef; mstep.
    + repeat split; try discriminate; auto.
      intros [H | (c' & [= <-] & Hf & _)]; [exact H | congruence].
    + fold (deleteInput c).
      destruct (Albelbv2.DeleteRule ELBV2svc (deleteInput c)) as [err |] eqn:Hcall.
      * destruct (Priority c); mstep; cbn [finalRule];
          (repeat split; try discriminate; auto;
           intros [H | (c' & [= <-] & _ & Hn)]; [exact H | congruence]).
      * cbn [finalRule setDeleted r_rs r_svc deleted].
        repeat split; try discriminate. intros _. right. exists c. auto.
    + repeat split; try discriminate; auto.
      intros [H | (c' & [= <-] & Hf & _)]; [exact H | congruence].
  - repeat split; auto.
    intros [H | (c' & Hsome & _)]; [exact H | discriminate].
Qed.

Lemma lookupFrom_found (t : Tg.TargetGroups) (b : Tg.IngressBackend) :
  forall p : Z,
    0 <= p ->
    p <= Tg.lookupFrom p t b ->
    exists v,
      t !! Z.to_nat (Tg.lookupFrom p t b - p) = Some v /\
      Tg.SvcName v = Tg.ServiceName b /\ Tg.SvcPort v = Tg.ServicePort b.
Proof.
  induction t as [| v t IH]; intros p Hp0 Hp; cbn [Tg.lookupFrom] in *.
  - lia.
  - destruct (bool_decide (Tg.SvcName v = Tg.ServiceName b)
              && bool_decide (Tg.SvcPort v = Tg.ServicePort b)) eqn:Hm.
    + exists v. replace (p - p) with 0 by lia. split; [reflexivity | ].
      apply andb_true_iff in Hm as [H1 H2].
      apply bool_decide_eq_true in H1, H2. auto.
    + assert (Hge : p + 1 <= Tg.lookupFrom (p + 1) t b).
      { destruct (lookupFrom_range t b (p + 1)) as [Hnone | [Hle _]]; lia. }
      destruct (IH (p + 1) ltac:(lia) Hge) as (w & Hw & Hnw).
      exists w. split; [ | exact Hnw].
      replace (Z.to_nat (Tg.lookupFrom (p + 1) t b - p))
        with (S (Z.to_nat (Tg.lookupFrom (p + 1) t b - (p + 1)))) by lia.
      exact Hw.
Qed.

Lemma lookupFrom_none (t : Tg.TargetGroups) (b : Tg.IngressBackend) :
  (forall v, v ∈ t -> Tg.SvcName v = Tg.ServiceName b ->
             Tg.SvcPort v <> Tg.ServicePort b) ->
  forall p, Tg.lookupFrom p t b = -1.
Proof.
  induction t as [| v t IH]; intros Hno p; cbn [Tg.lookupFrom]; [reflexivity | ].
  destruct (bool_decide (Tg.SvcName v = Tg.ServiceName b)
            && bool_decide (Tg.SvcPort v = Tg.ServicePort b)) eqn:Hm.
  - apply andb_true_iff in Hm as [H1 H2]. apply bool_decide_eq_true in H1, H2.
    exfalso. exact (Hno v (list_elem_of_here _ _) H1 H2).
  - apply IH. intros w Hw. apply Hno. apply list_elem_of_further. exact Hw.
Qed.

(** X16. [TargetGroupArn] never fails and never touches the rule or the
    cloud. It writes one error line exactly when it returns nil, and
    nothing otherwise. A returned ARN is the current ARN of a target group
    that serves the desired service name and port; when no target group
    serves them the result is nil. *)
Theorem TargetGroupArn_logs_exactly_when_nil (tgs : Tg.TargetGroups) (r : Rule)
    (tr : list effect) :
  exists arn log,
    TargetGroupArn tgs r tr = Returns arn r (tr ++ log) /\
    (arn = None <-> exists line, log = [Log Error line]) /\
    (arn <> None <-> log = []) /\
    (forall a,
        arn = Some a ->
        exists t,
          t ∈ tgs /\
          Tg.SvcName t = name (svc_desired (r_svc r)) /\
          Tg.SvcPort t = port (svc_desired (r_svc r)) /\
          Tg.CurrentARN t = Some a) /\
    ((forall t, t ∈ tgs -> Tg.SvcName t = name (svc_desired (r_svc r)) ->
                Tg.SvcPort t <> port (svc_desired (r_svc r))) ->
     arn = None).
Proof.
  exists (lookupArn tgs (svc_desired (r_svc r))), (lookupLog tgs (svc_desired (r_svc r))).
  split; [apply TargetGroupArn_eval | ].
  unfold lookupLog, lookupArn.
  set (b := backendOf (svc_desired (r_svc r))).
  destruct (Tg.LookupByBackend tgs b <? 0) eqn:Hneg.
  - split; [split; eauto | ].
    split; [split; [congruence | discriminate] | ].
    split; [discriminate | reflexivity].
  - apply Z.ltb_ge in Hneg. unfold Tg.LookupByBackend in *.
    destruct (lookupFrom_found tgs b 0 ltac:(lia) Hneg) as (v & Hv & Hname & Hport).
    rewrite Z.sub_0_r in Hv. rewrite Hv.
    split; [ | split; [ | split]].
    + destruct (Tg.CurrentARN v); split; eauto; try discriminate.
      intros [line Hl]. discriminate Hl.
    + destruct (Tg.CurrentARN v); split; congruence.
    + intros a Ha. exists v. split; [ | auto].
      apply list_elem_of_lookup. eauto.
    + intros Hno. rewrite (lookupFrom_none tgs b Hno 0) in Hneg. lia.
Qed.

(** X17. Stripping decides what the next pass may do. Once the desired state
    is stripped, [Reconcile] can only delete: its one possible cloud call is
    a delete of the current rule, and the desired state stays empty. Once
    the current state is stripped, its one possible call is a create. With
    both stripped it does nothing at all. *)
Theorem Reconcile_after_strip (r : Rule) (tr tr0 : list effect) :
  (exists calls,
      cloudCalls (finalTrace
                    (Reconcile ELBV2svc rOpts (finalRule (stripDesiredState r tr0)) tr)) =
        cloudCalls tr ++ calls /\
      (calls = [] \/
       exists c, calls = [CloudDeleteRule (deleteInput c)] /\
                 rs_current (r_rs r) = Some c /\ IsDefault c = Some false) /\
      rs_desired (r_rs (finalRule
                          (Reconcile ELBV2svc rOpts (finalRule (stripDesiredState r tr0)) tr)))
        = None) /\
  (exists calls,
      cloudCalls (finalTrace
                    (Reconcile ELBV2svc rOpts (finalRule (stripCurrentState r tr0)) tr)) =
        cloudCalls tr ++ calls /\
      (calls = [] \/ exists i, calls = [CloudCreateRule i])) /\
  Reconcile ELBV2svc rOpts
    (finalRule (stripCurrentState (finalRule (stripDesiredState r tr0)) tr0)) tr =
    Returns None
      (finalRule (stripCurrentState (finalRule (stripDesiredState r tr0)) tr0)) tr.
Proof.
  cbn [stripDesiredState stripCurrentState update finalRule].
  split; [ | split].
  - rewrite Reconcile_eval.
    destruct (resolved_no_desired rOpts (setDesired None r) eq_refl) as [-> ->].
    rewrite app_nil_r.
    destruct (reconcileSwitch_calls (setDesired None r) tr) as (calls & Hcalls & Hkind).
    destruct (reconcileSwitch_keeps_desired (setDesired None r) tr) as [Hdes _].
    exists calls. split; [exact Hcalls | ]. split; [ | exact Hdes].
    destruct Hkind as [H | [(c & H1 & _ & H3 & H4) | [(d & p & _ & _ & H & _) | (c & d & _ & _ & H & _)]]].
    + left. exact H.
    + right. exists c. auto.
    + discriminate H.
    + discriminate H.
  - rewrite Reconcile_eval.
    destruct (reconcileSwitch_calls (resolved rOpts (setCurrent None r))
                (tr ++ resolutionLog rOpts (setCurrent None r)))
      as (calls & Hcalls & Hkind).
    exists calls. split.
    + rewrite Hcalls, cloudCalls_app, cloudCalls_resolutionLog, app_nil_r. reflexivity.
    + assert (Hcur : rs_current (r_rs (resolved rOpts (setCurrent None r))) = None)
        by (unfold resolved; cbn; destruct (rs_desired (r_rs r)); reflexivity).
      rewrite Hcur in Hkind.
      destruct Hkind as [H | [(c & _ & _ & H & _) | [(d & p & H & _) | (c & d & _ & H & _)]]].
      * left. exact H.
      * discriminate H.
      * right. eauto.
      * discriminate H.
  - reflexivity.
Qed.

End ReconcileFacts.

(** ** Ports, their order and the change flags *)

From stdpp Require Import sorting.

Local Open Scope Z_scope.
Local Open Scope list_scope.

Section PortFacts.

Import Lb Obs.

Lemma index_Done (a : list Z) (i x : Z) :
  index a i = Done x <-> 0 <= i /\ a !! Z.to_nat i = Some x.
Proof.
  unfold index. destruct (Z.leb_spec 0 i); cbn [andb].
  - destruct (Z.ltb_spec i (Z.of_nat (length a))) as [Hlt | Hge].
    + destruct (a !! Z.to_nat i) eqn:Hl; cbn; split.
      * intros [= ->]. auto.
      * intros [_ [= ->]]. reflexivity.
      * discriminate.
      * intros [_ H']. discriminate.
    + split; [discriminate | ]. intros [_ Hl].
      apply lookup_lt_Some in Hl. lia.
  - split; [discriminate | lia].
Qed.

Lemma index_Panic (a : list Z) (i : Z) :
  index a i = Panic <-> ~ (0 <= i < Len a).
Proof.
  unfold index, Len. destruct (Z.leb_spec 0 i); cbn [andb].
  - destruct (Z.ltb_spec i (Z.of_nat (length a))) as [Hlt | Hge].
    + destruct (a !! Z.to_nat i) eqn:Hx; cbn.
      * split; [discriminate | lia].
      * apply lookup_ge_None in Hx. lia.
    + split; [lia | reflexivity].
  - split; [lia | reflexivity].
Qed.

Lemma insert_head_Permutation (l : list Z) (j : nat) (a y : Z) :
  l !! j = Some y -> y :: <[j := a]> l ≡ₚ a :: l.
Proof.
  revert j. induction l as [| b t IH]; intros [| j] H; cbn in *; try discriminate.
  - injection H as ->. apply perm_swap.
  - rewrite (perm_swap b y). rewrite (IH j H). apply perm_swap.
Qed.

Lemma swap_Permutation (l : list Z) :
  forall (i j : nat) (x y : Z),
    l !! i = Some x -> l !! j = Some y ->
    <[j := x]> (<[i := y]> l) ≡ₚ l.
Proof.
  induction l as [| a t IH]; intros [| i] [| j] x y Hi Hj; cbn in *;
    try discriminate.
  - injection Hi as ->. injection Hj as ->. reflexivity.
  - injection Hi as ->. apply insert_head_Permutation. exact Hj.
  - injection Hj as ->. apply insert_head_Permutation. exact Hi.
  - f_equiv. exact (IH i j x y Hi Hj).
Qed.

(** X18. [Swap] panics exactly when one of its indices is out of range.
    Otherwise it exchanges the two elements and nothing else: the list keeps
    its length and its elements, every other position keeps its element, and
    swapping the same two positions again gives the list back. *)
Theorem Swap_exchanges_two_elements (a : portList) (i j : Z) :
  (Swap a i j = Panic <-> ~ (0 <= i < Len a /\ 0 <= j < Len a)) /\
  (forall a',
      Swap a i j = Done a' ->
      a' ≡ₚ a /\
      Len a' = Len a /\
      index a' i = index a j /\
      index a' j = index a i /\
      (forall k, k <> i -> k <> j -> index a' k = index a k) /\
      Swap a' i j = Done a).
Proof.
  unfold Swap. split.
  - destruct (index a j) as [aj |] eqn:Hj.
    + destruct (index a i) as [ai |] eqn:Hi.
      * split; [discriminate | ]. intros Hn. exfalso. apply Hn.
        apply index_Done in Hi as [Hi0 Hi], Hj as [Hj0 Hj].
        apply lookup_lt_Some in Hi, Hj. unfold Len. lia.
      * split; [ | reflexivity]. intros _ [Hr _].
        apply index_Panic in Hi. contradiction.
    + split; [ | reflexivity]. intros _ [_ Hr].
      apply index_Panic in Hj. contradiction.
  - intros a' H.
    destruct (index a j) as [aj |] eqn:Hj; [ | discriminate].
    destruct (index a i) as [ai |] eqn:Hi; [ | discriminate].
    injection H as <-.
    apply index_Done in Hi as [Hi0 Hi], Hj as [Hj0 Hj].
    pose proof (lookup_lt_Some _ _ _ Hi) as Hil.
    pose proof (lookup_lt_Some _ _ _ Hj) as Hjl.
    set (a' := <[Z.to_nat j := ai]> (<[Z.to_nat i := aj]> (a : list Z))).
    assert (Hlen : length a' = length a) by (unfold a'; rewrite !length_insert; reflexivity).
    assert (Hai : a' !! Z.to_nat i = Some aj).
    { unfold a'. destruct (decide (Z.to_nat j = Z.to_nat i)) as [Heq | Hne].
      - rewrite Heq. rewrite list_lookup_insert_eq by (rewrite length_insert; lia).
        rewrite Heq in Hj. congruence.
      - rewrite list_lookup_insert_ne by exact Hne.
        apply list_lookup_insert_eq. lia. }
    assert (Haj : a' !! Z.to_nat j = Some ai).
    { unfold a'. apply list_lookup_insert_eq. rewrite length_insert. lia. }
    split; [exact (swap_Permutation a _ _ ai aj Hi Hj) | ].
    split; [unfold Len; rewrite Hlen; reflexivity | ].
    split; [apply index_Done; auto | ].
    split; [apply index_Done; auto | ].
    split.
    + intros k Hki Hkj. unfold index. rewrite Hlen.
      destruct ((0 <=? k) && (k <? Z.of_nat (length a))) eqn:Hr; [ | reflexivity].
      apply andb_true_iff in Hr as [Hk0 Hk1]. apply Z.leb_le in Hk0.
      unfold a'. rewrite !list_lookup_insert_ne by lia. reflexivity.
    + rewrite (proj2 (index_Done a' j ai) (conj Hj0 Haj)).
      rewrite (proj2 (index_Done a' i aj) (conj Hi0 Hai)). f_equal.
      apply list_eq. intros k.
      destruct (decide (k = Z.to_nat j)) as [-> | Hkj].
      * rewrite list_lookup_insert_eq by (rewrite length_insert, Hlen; lia). congruence.
      * rewrite list_lookup_insert_ne by auto.
        destruct (decide (k = Z.to_nat i)) as [-> | Hki].
        -- rewrite list_lookup_insert_eq by (rewrite Hlen; lia). congruence.
        -- rewrite list_lookup_insert_ne by auto.
           unfold a'. rewrite !list_lookup_insert_ne by auto. reflexivity.
Qed.

Lemma sortPorts_StronglySorted (l : portList) : StronglySorted Z.le (sortPorts l).
Proof. apply Sorted.Sorted_StronglySorted; [intros x y z; lia | apply sortPorts_Sorted]. Qed.

Lemma StronglySorted_lookup_le (l : list Z) :
  StronglySorted Z.le l ->
  forall (i j : nat) (x y : Z),
    (i <= j)%nat -> l !! i = Some x -> l !! j = Some y -> x <= y.
Proof.
  induction 1 as [| a l Hs IH Hall]; intros i j x y Hij Hi Hj.
  - discriminate.
  - destruct i as [| i]; destruct j as [| j]; cbn in *.
    + injection Hi as ->. injection Hj as ->. lia.
    + injection Hi as ->. rewrite List.Forall_forall in Hall.
      apply Hall. apply list_elem_of_In. apply list_elem_of_lookup. eauto.
    + lia.
    + apply (IH i j); [lia | assumption | assumption].
Qed.

(** X19. Sorting a port list leaves its elements as they are and leaves no
    inversion behind, in the terms of the list's own [Less]: for two
    positions in range, the later one is never [Less] than the earlier
    one. *)
Theorem sorted_ports_have_no_inversion (l : portList) :
  sortPorts l ≡ₚ l /\
  Len (sortPorts l) = Len l /\
  forall i j,
    0 <= i -> i <= j -> j < Len (sortPorts l) ->
    Less (sortPorts l) j i = Done false.
Proof.
  split; [apply sortPorts_Permutation | ].
  split; [unfold Len; rewrite (Permutation_length (sortPorts_Permutation l)); reflexivity | ].
  intros i j Hi Hij Hj. unfold Len in Hj.
  destruct (lookup_lt_is_Some_2 (sortPorts l) (Z.to_nat i) ltac:(lia)) as [x Hx].
  destruct (lookup_lt_is_Some_2 (sortPorts l) (Z.to_nat j) ltac:(lia)) as [y Hy].
  assert (Hj0 : 0 <= j) by lia.
  unfold Less.
  rewrite (proj2 (index_Done _ j y) (conj Hj0 Hy)).
  rewrite (proj2 (index_Done _ i x) (conj Hi Hx)).
  f_equal. apply Z.ltb_ge.
  apply (StronglySorted_lookup_le _ (sortPorts_StronglySorted l)
           (Z.to_nat i) (Z.to_nat j)); [lia | assumption | assumption].
Qed.

Lemma sortPorts_canonical (l l' : portList) :
  l ≡ₚ l' -> sortPorts l = sortPorts l'.
Proof.
  intros Hp. apply (Sorted_unique Z.le); try apply sortPorts_Sorted.
  rewrite !sortPorts_Permutation. exact Hp.
Qed.

Lemma Sort_canonical (p q : option portList) :
  samePorts p q -> Sort p = Sort q.
Proof.
  destruct p, q; cbn; try tauto. intros H. f_equal. apply sortPorts_canonical. exact H.
Qed.

Lemma sortPorts_idem (l : portList) : sortPorts (sortPorts l) = sortPorts l.
Proof. apply sortPorts_canonical. apply sortPorts_Permutation. Qed.

(** X20. The order in which the ports are listed, on either side, has no
    influence on the change mask. *)
Theorem change_mask_ignores_port_order (Hash : list (option string) -> string)
    (cur des : opts) (pc pc' pd pd' : option portList) :
  samePorts pc pc' ->
  samePorts pd pd' ->
  snd (needsModification Hash {| current := withPorts pc cur; desired := withPorts pd des |}) =
  snd (needsModification Hash {| current := withPorts pc' cur; desired := withPorts pd' des |}).
Proof.
  intros Hc Hd. unfold needsModification.
  cbn [current desired withPorts ports managedSG inboundCidrs webACLId].
  rewrite (Sort_canonical pc pc' Hc), (Sort_canonical pd pd' Hd).
  assert (Hnil : isNil pc = isNil pc') by (destruct pc, pc'; cbn in *; tauto).
  rewrite Hnil.
  repeat match goal with
         | |- context [if ?b then _ else _] => destruct b
         end; reflexivity.
Qed.

(** X21. What [needsModification] does to the port lists it is called on:
    when the current ports and the current managed security group are
    there, the two port lists are left sorted (same ports, a nil list still
    nil); otherwise the guarded block is skipped and the options are as
    they were. A second call leaves the port lists as the first one left
    them. *)
Theorem needsModification_sorts_ports_in_place
    (Hash : list (option string) -> string) (o : options) :
  let o' := fst (needsModification Hash o) in
  let populated := ports (current o) <> None /\ managedSG (current o) <> None in
  (populated ->
   ports (current o') = Sort (ports (current o)) /\
   ports (desired o') = Sort (ports (desired o))) /\
  (~ populated -> o' = o) /\
  samePorts (ports (current o')) (ports (current o)) /\
  samePorts (ports (desired o')) (ports (desired o)) /\
  ports (current (fst (needsModification Hash o'))) = ports (current o') /\
  ports (desired (fst (needsModification Hash o'))) = ports (desired o').
Proof.
  intros o' populated. subst o' populated.
  assert (Hsame : forall p, samePorts (Sort p) p).
  { intros [l |]; cbn; [apply sortPorts_Permutation | exact I]. }
  assert (Hsame' : forall p : option portList, samePorts p p).
  { intros [l |]; cbn; [reflexivity | exact I]. }
  assert (Hidem : forall p, Sort (Sort p) = Sort p).
  { intros [l |]; cbn; [rewrite sortPorts_idem | ]; reflexivity. }
  destruct o as [[pc cc wc sc ic] [pd cd wd sd id]].
  set (o := {| current := mkOpts pc cc wc sc ic; desired := mkOpts pd cd wd sd id |}).
  set (sorted := {| current := mkOpts (Sort pc) cc wc sc ic;
                    desired := mkOpts (Sort pd) cd wd sd id |}).
  assert (Hfst : fst (needsModification Hash o) =
                 if negb (isNil pc) && negb (isNil sc) then sorted else o).
  { unfold needsModification, o.
    cbn [current desired ports managedSG inboundCidrs webACLId withPorts].
    repeat match goal with
           | |- context [if ?b then _ else _] => destruct b
           end; reflexivity. }
  assert (Hagain : negb (isNil pc) && negb (isNil sc) = true ->
                   needsModification Hash sorted = (sorted, snd (needsModification Hash o))).
  { intros Hpop. unfold needsModification, o, sorted.
    cbn [current desired ports managedSG inboundCidrs webACLId withPorts].
    rewrite !Hidem.
    assert (Hnil : isNil (Sort pc) = isNil pc) by (destruct pc; reflexivity).
    rewrite Hnil, Hpop.
    repeat match goal with
           | |- context [if ?b then _ else _] => destruct b
           end; reflexivity. }
  rewrite Hfst.
  cbn [current desired ports managedSG].
  destruct (negb (isNil pc) && negb (isNil sc)) eqn:Hpop.
  - rewrite (Hagain eq_refl).
    split; [intros _; split; reflexivity | ].
    split.
    { intros Hn. exfalso. apply Hn.
      apply andb_true_iff in Hpop as [H1 H2].
      apply negb_true_iff in H1, H2. apply isNil_false in H1, H2. auto. }
    split; [apply Hsame | ]. split; [apply Hsame | ].
    split; reflexivity.
  - split.
    { intros [H1 H2]. apply isNil_false in H1, H2. cbn in H1, H2.
      rewrite H1, H2 in Hpop. discriminate Hpop. }
    split; [reflexivity | ].
    split; [apply Hsame' | ]. split; [apply Hsame' | ].
    rewrite Hfst. split; reflexivity.
Qed.

(** X22. The nine change flags are distinct single bits: setting one flag in
    a mask makes the test for that flag succeed and leaves the test for
    every other flag as it was. *)
Theorem setting_a_flag_is_exact (m f g : loadBalancerChange) :
  f ∈ allFlags -> g ∈ allFlags ->
  (Z.land (Z.lor m f) g <> 0 <-> f = g \/ Z.land m g <> 0).
Proof.
  intros Hf Hg. rewrite Z.land_lor_distr_l.
  unfold allFlags in Hf, Hg.
  repeat (apply elem_of_cons in Hf as [-> | Hf]);
    try (apply elem_of_nil in Hf; contradiction).
  all: repeat (apply elem_of_cons in Hg as [-> | Hg]);
    try (apply elem_of_nil in Hg; contradiction).
  all: match goal with
       | |- context [Z.lor _ (Z.land ?a ?b)] =>
           let v := eval vm_compute in (Z.land a b) in
           change (Z.land a b) with v
       end.
  all: rewrite ?Z.lor_0_r.
  all: first
         [ split; [intros H; right; exact H
                  | intros [H | H]; [vm_compute in H; discriminate H | exact H]]
         | split; [intros _; left; reflexivity | ];
           intros _ Hz; apply Z.lor_eq_0_iff in Hz as [_ Hz]; discriminate Hz ].
Qed.

End PortFacts.

(** ** The further properties at concrete rules *)

Section FurtherWitnesses.

Import Elbv2 Rs Obs Samples.

Lemma conditionsEqual_is_inclusion_witness :
  (conditionsEqual [hostCond] [hostCond; pathCond] = Done true <->
     forall f v, hostMap !! f = Some v -> hostPathMap !! f = Some v) /\
  (conditionsEqual [hostCond] [hostCond; pathCond] = Done false <->
     exists f v, hostMap !! f = Some v /\ hostPathMap !! f <> Some v).
Proof.
  exact (conditionsEqual_is_inclusion [hostCond] [hostCond; pathCond]
           hostMap hostPathMap eq_refl eq_refl).
Defined.

Lemma sample_fields_present : fieldsPresent [hostCond; pathCond].
Proof. repeat constructor; cbn; eauto. Qed.

Lemma sample_fields_distinct : NoDup (fieldOf <$> [hostCond; pathCond]).
Proof. compute_done. Qed.

Lemma conditionsEqual_order_irrelevant_witness :
  conditionsEqual [pathCond; hostCond] [pathCond; hostCond] =
  conditionsEqual [hostCond; pathCond] [hostCond; pathCond].
Proof.
  exact (conditionsEqual_order_irrelevant
           [hostCond; pathCond] [pathCond; hostCond]
           [hostCond; pathCond] [pathCond; hostCond]
           sample_fields_present sample_fields_distinct (perm_swap _ _ _)
           sample_fields_present sample_fields_distinct (perm_swap _ _ _)).
Defined.

Lemma Reconcile_creates_missing_rule_witness :
  exists r',
    Reconcile cloudOK rOpts (NewDesiredRule (desiredOptions 5)) [] =
      Returns None r'
        ([] ++ resolutionLog rOpts (NewDesiredRule (desiredOptions 5)) ++
         [Log Info "Start Rule creation.";
          CloudCreateRule
            {| cri_Actions := [forward (Some "arn:tg/web")];
               cri_Conditions := [hostCond; pathCond];
               cri_ListenerArn := Some "arn:listener";
               cri_Priority := Some 5 |};
          Event EventTypeNormal "CREATE" (Fmt "%s rule created" [AStr "5"]);
          Log Info "Completed Rule creation. Rule Priority: %s | Condition: %s"]) /\
    rs_current (r_rs r') = Some createdRule5 /\
    svc_current (r_svc r') = webService 8080 /\
    svc_desired (r_svc r') = webService 8080 /\
    deleted r' = false.
Proof.
  exact (Reconcile_creates_missing_rule cloudOK rOpts
           (NewDesiredRule (desiredOptions 5)) [] desiredRule5 5
           {| cro_Rules := [Some createdRule5] |} createdRule5 [] "5"
           eq_refl eq_refl eq_refl eq_refl eq_refl eq_refl eq_refl).
Defined.

Lemma Reconcile_settles_after_create_witness :
  exists tr2',
    Reconcile cloudDown rOpts
      (finalRule (Reconcile cloudOK rOpts (NewDesiredRule (desiredOptions 5)) [])) [] =
      Returns None
        (finalRule (Reconcile cloudOK rOpts (NewDesiredRule (desiredOptions 5)) [])) tr2' /\
    cloudCalls tr2' = cloudCalls [].
Proof.
  exact (Reconcile_settles_after_create cloudOK rOpts
           (NewDesiredRule (desiredOptions 5)) [] desiredRule5 5
           {| cro_Rules := [Some createdRule5] |} createdRule5 [] "5"
           eq_refl eq_refl eq_refl eq_refl eq_refl eq_refl eq_refl eq_refl
           (ex_intro _ hostPathMap (conj eq_refl eq_refl))
           cloudDown []).
Defined.

Lemma Reconcile_modifies_differing_rule_witness :
  Reconcile cloudSilent rOpts (paired 5 (cloudRule [hostCond; pathCond]) 9090) [] =
    Returns None
      (setSvcCurrent (webService 8080)
         (resolved rOpts (paired 5 (cloudRule [hostCond; pathCond]) 9090)))
      ([Log Debug "Target port needs to be changed (%v != %v)"] ++
       [CloudModifyRule
          (modifyInput (cloudRule [hostCond; pathCond])
             (resolveRule (Some "arn:tg/web") desiredRule5));
        Event EventTypeNormal "MODIFY" (Fmt "%s rule modified" [AStr "5"])]).
Proof.
  refine (Reconcile_modifies_differing_rule cloudSilent rOpts
            (paired 5 (cloudRule [hostCond; pathCond]) 9090) []
            [Log Debug "Target port needs to be changed (%v != %v)"]
            (cloudRule [hostCond; pathCond]) desiredRule5
            {| mro_Rules := [] |}
            eq_refl eq_refl eq_refl _ eq_refl "5" eq_refl).
  vm_compute. reflexivity.
Defined.

Lemma cloudFixed_well_formed : wfCloud cloudFixed.
Proof.
  assert (Hx : wfSnapshot (cloudRule [hostCond; pathCond])).
  { repeat split; cbn; eauto. apply sample_fields_present. }
  split.
  - intros i o [= <-]. eauto.
  - intros i o first rest [= <-] [= <- <-]. eauto.
Qed.

Lemma desired5_well_formed : wfRule (NewDesiredRule (desiredOptions 5)).
Proof.
  split.
  - intros d [= <-]. repeat split; cbn; eauto. apply sample_fields_present.
  - intros c Hc. discriminate Hc.
Qed.

Lemma Reconcile_keeps_rule_well_formed_witness :
  exists e r' tr',
    Reconcile cloudFixed rOpts (NewDesiredRule (desiredOptions 5)) [] =
      Returns e r' tr' /\ wfRule r'.
Proof.
  exact (Reconcile_keeps_rule_well_formed cloudFixed rOpts
           (NewDesiredRule (desiredOptions 5)) []
           cloudFixed_well_formed desired5_well_formed).
Defined.

Lemma change_mask_ignores_port_order_witness :
  snd (Lb.needsModification (fun _ => "h")
         {| Lb.current := Lb.withPorts (Some [1; 2; 3]) (someOpts None None);
            Lb.desired := Lb.withPorts (Some [2; 3]) (someOpts None (Some "acl")) |}) =
  snd (Lb.needsModification (fun _ => "h")
         {| Lb.current := Lb.withPorts (Some [3; 1; 2]) (someOpts None None);
            Lb.desired := Lb.withPorts (Some [3; 2]) (someOpts None (Some "acl")) |}).
Proof.
  exact (change_mask_ignores_port_order (fun _ => "h")
           (someOpts None None) (someOpts None (Some "acl"))
           (Some [1; 2; 3]) (Some [3; 1; 2]) (Some [2; 3]) (Some [3; 2])
           (sortPorts_Permutation [3; 1; 2]) (sortPorts_Permutation [3; 2])).
Defined.

Lemma ports_flag_listed : Lb.portsModified ∈ allFlags.
Proof. unfold allFlags. repeat first [apply list_elem_of_here | apply list_elem_of_further]. Qed.

Lemma acl_flag_listed : Lb.webACLAssociationModified ∈ allFlags.
Proof. unfold allFlags. repeat first [apply list_elem_of_here | apply list_elem_of_further]. Qed.

Lemma setting_a_flag_is_exact_witness :
  Z.land (Z.lor Lb.inboundCidrsModified Lb.portsModified) Lb.webACLAssociationModified <> 0
  <-> Lb.portsModified = Lb.webACLAssociationModified \/
      Z.land Lb.inboundCidrsModified Lb.webACLAssociationModified <> 0.
Proof.
  exact (setting_a_flag_is_exact Lb.inboundCidrsModified Lb.portsModified
           Lb.webACLAssociationModified ports_flag_listed acl_flag_listed).
Defined.

End FurtherWitnesses.
